(** * Marinus: the certificate-transparency log crawler

    A shallow embedding of [python3_cron_scripts/get_original_ct_logs.py]:
    the Merkle-leaf decoder, the zone relevancy filter, the certificate
    upsert, the cursor resolution, the HTTPS request helpers with their
    failure policy and the crawl loop of [main], followed by the
    properties of the design specification that concern them.

    Python integers are [Z]; [bytes] values are [list byte]; [str] values
    are [string]; a raised exception is the [Raise] case of [result].
    Calls to the logger change neither the control flow nor the store and
    are left out; requests, sleeps, job markers and file writes are
    recorded as events of the run. *)

From Stdlib Require Import ZArith Lia List Strings.String Strings.Ascii Strings.Byte DecimalString.
From stdpp Require Import base list strings gmap numbers.

Local Open Scope Z_scope.

(** ** Exceptions and fallible results *)

(** The Python exceptions the modelled code can raise by itself. *)
Inductive exn :=
  | IndexError
  | KeyError (key : string)
  | TypeError
  | BinasciiError
  | JSONDecodeError.

Inductive result (A : Type) :=
  | Ok (a : A)
  | Raise (e : exn).
Arguments Ok {A} a.
Arguments Raise {A} e.

#[export] Instance result_ret : MRet result := λ A a, Ok a.
#[export] Instance result_bind : MBind result := λ A B f r,
  match r with
  | Ok a => f a
  | Raise e => Raise e
  end.

Definition is_Ok {A} (r : result A) : Prop :=
  match r with
  | Ok _ => True
  | Raise _ => False
  end.

#[export] Instance is_Ok_dec {A} (r : result A) : Decision (is_Ok r).
Proof. destruct r; simpl; apply _. Defined.

(** ** Bytes *)

Definition byte_to_Z (b : byte) : Z := Z.of_N (Byte.to_N b).

(** [int.from_bytes(b, "big")]: the empty buffer gives 0. *)
Definition int_from_bytes_big (b : list byte) : Z :=
  fold_left (λ acc x, acc * 256 + byte_to_Z x) b 0.

(** [b[i]] for a non-negative constant [i]: out of range raises. *)
Definition index (b : list byte) (i : nat) : result byte :=
  match b !! i with
  | Some x => Ok x
  | None => Raise IndexError
  end.

(** [b[lo:hi]] for non-negative bounds: a slice never raises, it is
    clipped to the buffer. *)
Definition slice {A} (lo hi : nat) (b : list A) : list A :=
  take (hi - lo) (drop lo b).

(** [b[lo:]] *)
Definition slice_from {A} (lo : nat) (b : list A) : list A := drop lo b.

(** ** External collaborators

    [base64.b64decode] belongs to the Python library; [X509Parser] is a
    module of the repository whose source is not part of the crawler
    script.  Both are taken as parameters of the model. *)

Record certificate := {
  fingerprint_sha256 : string;
  subject_organization_name : option (list string);
  subject_common_names : option (list string);
  subject_dns_names : option (list string);
  not_after : Z;
  raw : string;
  ct_log_type : string;
  zones : list string;
  sources : list string;
  (** the integer fields ["{source}_id"], keyed by [source] *)
  source_id : gmap string Z;
  isExpired : bool;
  marinus_updated : Z
}.

Class Externals := {
  (** [base64.b64decode]: the decoded bytes, or [binascii.Error] *)
  b64decode : string → result (list byte);
  (** [X509Parser.parse_data(der_cert, source)]: the attribute set, or
      [None] when the bytes do not parse; [der_cert] may be [None] *)
  parse_data : option (list byte) → string → option certificate;
  (** [X509Parser.CT_LOG_MAP]: source key to the log's ["url"] *)
  CT_LOG_MAP : gmap string string
}.

(** ** The leaf decoder *)

Record leaf_header := {
  version : Z;
  merkle_leaf_type : Z;
  timestamp : Z;
  LogEntryType : Z;
  Entry : list byte
}.

Definition read_leaf_header (leaf : list byte) : result leaf_header :=
  v ← index leaf 0;
  m ← index leaf 1;
  Ok {| version := byte_to_Z v;
        merkle_leaf_type := byte_to_Z m;
        timestamp := int_from_bytes_big (slice 2 10 leaf);
        LogEntryType := int_from_bytes_big (slice 10 12 leaf);
        Entry := slice_from 12 leaf |}.

Section Decoder.
Context `{!Externals}.

(** The pair [(cert, cert_type)]; [None] for a precertificate leaf and
    for a length mismatch. *)
Definition get_cert_from_leaf (leaf : string) : result (option (list byte) * Z) :=
  data ← b64decode leaf;
  header ← read_leaf_header data;
  let cert_type := LogEntryType header in
  if cert_type =? 1 then Ok (None, cert_type)
  else
    let cert_length := int_from_bytes_big (slice 0 3 (Entry header)) in
    let cert := slice_from 3 (Entry header) in
    if negb (cert_length =? Z.of_nat (length cert) - 2)
    then Ok (None, cert_type)
    else Ok (Some cert, cert_type).

Definition get_cert_from_extra_data (extra_data : string) : result (list byte) :=
  data ← b64decode extra_data;
  let cert_length := int_from_bytes_big (slice 0 3 data) in
  let cert := slice 3 (Z.to_nat (cert_length + 4)) data in
  Ok cert.
End Decoder.

(** ** The relevancy filter *)

(** [s.endswith(suffix)]: some tail of [s], [s] itself included, is
    [suffix]. *)
Fixpoint endswith (s suffix : string) : bool :=
  String.eqb s suffix ||
  match s with
  | EmptyString => false
  | String _ s' => endswith s' suffix
  end.

Definition check_org_relevancy (cert : certificate) (ssl_orgs : list string) : bool :=
  match subject_organization_name cert with
  | Some orgs => existsb (λ org, bool_decide (org ∈ ssl_orgs)) orgs
  | None => false
  end.

(** The test of the two inner loops: [cn == zone or cn.endswith("." + zone)]. *)
Definition zone_test (cn zone : string) : bool :=
  String.eqb cn zone || endswith cn ("." +:+ zone).

(** [for zone in zones: if ...: if zone not in cert_zones: cert_zones.append(zone)] *)
Definition for_zone (cn : string) (zones cert_zones : list string) : list string :=
  fold_left
    (λ acc zone,
       if zone_test cn zone
       then if bool_decide (zone ∈ acc) then acc else acc ++ [zone]
       else acc)
    zones cert_zones.

(** [for cn in names: for zone in zones: ...] *)
Definition for_cn (names zones cert_zones : list string) : list string :=
  fold_left (λ acc cn, for_zone cn zones acc) names cert_zones.

Definition check_zone_relevancy (cert : certificate) (zones : list string) : list string :=
  let cert_zones := [] in
  let cert_zones :=
    match subject_common_names cert with
    | Some names => for_cn names zones cert_zones
    | None => cert_zones
    end in
  let cert_zones :=
    match subject_dns_names cert with
    | Some names => for_cn names zones cert_zones
    | None => cert_zones
    end in
  cert_zones.

(** The specification's reading of the filter, to compare with the code:
    the candidate names, the sequence of all matches in visiting order,
    and the removal of repetitions that keeps each first occurrence. *)
Definition candidate_names (cert : certificate) : list string :=
  default [] (subject_common_names cert) ++ default [] (subject_dns_names cert).

Definition is_subdomain_or_equal (cn zone : string) : Prop :=
  cn = zone ∨ ∃ label, cn = label +:+ "." +:+ zone.

Definition matches_in_visiting_order (names zones : list string) : list string :=
  flat_map (λ cn, List.filter (λ zone, zone_test cn zone) zones) names.

Fixpoint keep_first_seen (l : list string) : list string :=
  match l with
  | [] => []
  | z :: l' => z :: List.filter (λ y, negb (String.eqb y z)) (keep_first_seen l')
  end.

(** ** The certificate store *)

(** Field updates of a stored document. *)
Definition with_update (d : certificate) (source : string) (id : Z)
    (log_type : string) (cert_zones : list string) (now : Z)
    (new_sources : list string) : certificate :=
  {| fingerprint_sha256 := fingerprint_sha256 d;
     subject_organization_name := subject_organization_name d;
     subject_common_names := subject_common_names d;
     subject_dns_names := subject_dns_names d;
     not_after := not_after d;
     raw := raw d;
     ct_log_type := log_type;
     zones := cert_zones;
     sources := new_sources;
     source_id := <[source := id]> (source_id d);
     isExpired := isExpired d;
     marinus_updated := now |}.

Definition with_isExpired (d : certificate) (b : bool) : certificate :=
  {| fingerprint_sha256 := fingerprint_sha256 d;
     subject_organization_name := subject_organization_name d;
     subject_common_names := subject_common_names d;
     subject_dns_names := subject_dns_names d;
     not_after := not_after d;
     raw := raw d;
     ct_log_type := ct_log_type d;
     zones := zones d;
     sources := sources d;
     source_id := source_id d;
     isExpired := b;
     marinus_updated := marinus_updated d |}.

(** [$addToSet]: append unless already a member. *)
Definition addToSet (l : list string) (x : string) : list string :=
  if bool_decide (x ∈ l) then l else l ++ [x].

(** [collection.update_many(filter, update)]: every matching document is
    updated in place, the others are left as they are. *)
Definition update_many (query : certificate → bool) (update : certificate → certificate)
    (collection : list certificate) : list certificate :=
  map (λ d, if query d then update d else d) collection.

(** [collection.find(filter).count()] *)
Definition find_count (query : certificate → bool) (collection : list certificate) : nat :=
  length (List.filter query collection).

Definition by_fingerprint (fp : string) (d : certificate) : bool :=
  String.eqb (fingerprint_sha256 d) fp.

(** [now] is the value of [datetime.now()] in the update document.  The
    update document is built, and [cert[source + "_id"]] read, before
    [update_many] is called. *)
Definition insert_certificate (now : Z) (cert : certificate) (source : string)
    (ct_collection : list certificate) (cert_zones : list string)
    : result (list certificate) :=
  if (find_count (by_fingerprint (fingerprint_sha256 cert)) ct_collection =? 0)%nat
  then Ok (ct_collection ++ [cert])
  else
    match source_id cert !! source with
    | None => Raise (KeyError (source +:+ "_id"))
    | Some id =>
        Ok (update_many (by_fingerprint (fingerprint_sha256 cert))
              (λ d, with_update d source id (ct_log_type cert) cert_zones now
                      (addToSet (sources d) source))
              ct_collection)
    end.

(** Two records that differ at most in [marinus_updated] *)
Definition same_but_marinus_updated (d1 d2 : certificate) : Prop :=
  fingerprint_sha256 d2 = fingerprint_sha256 d1
  ∧ subject_organization_name d2 = subject_organization_name d1
  ∧ subject_common_names d2 = subject_common_names d1
  ∧ subject_dns_names d2 = subject_dns_names d1
  ∧ not_after d2 = not_after d1
  ∧ raw d2 = raw d1
  ∧ ct_log_type d2 = ct_log_type d1
  ∧ zones d2 = zones d1
  ∧ sources d2 = sources d1
  ∧ source_id d2 = source_id d1
  ∧ isExpired d2 = isExpired d1.

(** ** Cursor resolution *)

Fixpoint insert_desc (x : Z) (l : list Z) : list Z :=
  match l with
  | [] => [x]
  | y :: l' => if y <? x then x :: l else y :: insert_desc x l'
  end.

(** [.sort([(source + "_id", -1)])] on the projected field *)
Definition sort_desc (l : list Z) : list Z := foldr insert_desc [] l.

(** [None] stands for Python's [None], returned when the [for] loop over
    the cursor has nothing to visit. *)
Definition fetch_starting_index (ct_collection : list certificate) (source : string)
    : option Z :=
  let found := omap (λ d, source_id d !! source) ct_collection in
  let result := take 1 (sort_desc found) in
  if (length found =? 0)%nat then Some 0
  else head result.

(** The expiration sweep at the end of [main]; [utcnow] is the value of
    [datetime.utcnow()] in the filter. *)
Definition expiration_query (utcnow : Z) (d : certificate) : bool :=
  (not_after d <? utcnow) && bool_decide (isExpired d = false).

Definition main_sweep (utcnow : Z) (ct_collection : list certificate) : list certificate :=
  update_many (expiration_query utcnow) (λ d, with_isExpired d true) ct_collection.

(** ** The remote log, the run state and the program monad *)

(** [str(n)] for an integer *)
Definition str (n : Z) : string := NilZero.string_of_int (Z.to_int n).

Record entry := {
  leaf_input : string;
  (** absent when the log's answer has no ["extra_data"] key *)
  extra_data : option string
}.

(** The body of a response, represented by the JSON document it holds. *)
Inductive json :=
  | JsonSth (tree_size : Z)
  | JsonEntries (entries : list entry)
  | JsonOther.

Inductive text :=
  | Document (j : json)
  | Malformed.

(** What [requests] may raise out of [session.get] and [raise_for_status],
    and the classes named by the [except] clauses.  [isinstance] follows
    the class hierarchy of [requests.exceptions]: every class derives
    from [RequestException]; [ProxyError], [SSLError] and [ConnectTimeout]
    derive from [ConnectionError]; [ConnectTimeout] and [ReadTimeout]
    derive from [Timeout].  [OtherError] is any exception outside that
    hierarchy. *)
Inductive raised :=
  | ConnectionError
  | ProxyError
  | SSLError
  | ConnectTimeout
  | ReadTimeout
  | Timeout
  | HTTPError
  | RetryError
  | TooManyRedirects
  | RequestException
  | OtherError.

Inductive exn_class :=
  | ClsConnectionError
  | ClsHTTPError
  | ClsRequestException
  | ClsTimeout
  | ClsException.

Definition isinstance (e : raised) (c : exn_class) : bool :=
  match c, e with
  | ClsException, _ => true
  | ClsRequestException, OtherError => false
  | ClsRequestException, _ => true
  | ClsConnectionError, (ConnectionError | ProxyError | SSLError | ConnectTimeout) => true
  | ClsConnectionError, _ => false
  | ClsHTTPError, HTTPError => true
  | ClsHTTPError, _ => false
  | ClsTimeout, (Timeout | ConnectTimeout | ReadTimeout) => true
  | ClsTimeout, _ => false
  end.

(** The [status_forcelist] of [requests_retry_session]: the mounted
    adapter sends the request again, up to five times, when the answer has
    one of these statuses, and the session raises [RetryError] when they
    are used up.  A response with such a status is never what
    [session.get] returns. *)
Definition status_forcelist : list Z := [408; 500; 502; 503; 504].

(** The result of [requests_retry_session().get(url, timeout=120)], after
    the transport-tier retries of the mounted adapter. *)
Inductive http_outcome :=
  | Responds (status_code : Z) (body : text)
  | Fails (e : raised).

(** The outcomes [session.get] can have: any exception, or a response
    whose status the adapter does not retry. *)
Definition session_outcome (o : http_outcome) : Prop :=
  match o with
  | Responds status_code _ => status_code ∉ status_forcelist
  | Fails _ => True
  end.

(** Everything a run reads from outside. *)
Record world := {
  (** the outcome of the [k]-th GET of the run, sent to [url] *)
  session_get : nat → string → http_outcome;
  (** the [k]-th reading of [datetime.now()] for an update document
      (line 296); the two readings that [main] only prints, at its start
      and at its end, are not counted *)
  datetime_now : nat → Z;
  datetime_utcnow : Z;
  (** [ZoneManager.get_distinct_zones] *)
  distinct_zones : list string;
  (** the ["SSL_Orgs"] list of the configuration collection *)
  SSL_Orgs : list string
}.

Inductive event :=
  | Get (url : string)
  | Sleep (seconds : Z)
  | RecordJobStart
  | RecordJobError
  | RecordJobComplete
  | CheckSaveLocation (save_location source : string)
  | WriteFile (cert : certificate) (save_location save_type source : string).

Record state := {
  ct_collection : list certificate;
  (** the effects so far, oldest first *)
  trace : list event;
  requests_sent : nat;
  clock_reads : nat
}.

Inductive outcome (A : Type) :=
  | Returns (a : A)
  | Raises (e : exn)
  | Exits (code : Z)
  | OutOfFuel.
Arguments Returns {A} a.
Arguments Raises {A} e.
Arguments Exits {A} code.
Arguments OutOfFuel {A}.

Definition prog (A : Type) : Type := state → outcome A * state.

#[export] Instance prog_ret : MRet prog := λ A a s, (Returns a, s).
#[export] Instance prog_bind : MBind prog := λ A B f m s,
  match m s with
  | (Returns a, s') => f a s'
  | (Raises e, s') => (Raises e, s')
  | (Exits c, s') => (Exits c, s')
  | (OutOfFuel, s') => (OutOfFuel, s')
  end.

Definition lift {A} (r : result A) : prog A := λ s,
  match r with
  | Ok a => (Returns a, s)
  | Raise e => (Raises e, s)
  end.

(** [exit(code)] *)
Definition exit {A} (code : Z) : prog A := λ s, (Exits code, s).

Definition out_of_fuel {A} : prog A := λ s, (OutOfFuel, s).

Definition emit (ev : event) : prog unit := λ s,
  (Returns (),
   {| ct_collection := ct_collection s;
      trace := trace s ++ [ev];
      requests_sent := requests_sent s;
      clock_reads := clock_reads s |}).

Definition get_collection : prog (list certificate) := λ s,
  (Returns (ct_collection s), s).

Definition put_collection (c : list certificate) : prog unit := λ s,
  (Returns (),
   {| ct_collection := c;
      trace := trace s;
      requests_sent := requests_sent s;
      clock_reads := clock_reads s |}).

(** The GET events of a trace, in order. *)
Definition requested (t : list event) : list string :=
  omap (λ ev, match ev with Get url => Some url | _ => None end) t.

Definition json_loads (response : option text) : result json :=
  match response with
  | None => Raise TypeError
  | Some Malformed => Raise JSONDecodeError
  | Some (Document j) => Ok j
  end.

(** [sth_data["tree_size"]] and [certs["entries"]] *)
Definition get_tree_size (sth_data : json) : result Z :=
  match sth_data with
  | JsonSth n => Ok n
  | _ => Raise (KeyError "tree_size")
  end.

Definition get_entries (certs : json) : result (list entry) :=
  match certs with
  | JsonEntries l => Ok l
  | _ => Raise (KeyError "entries")
  end.

(** [entry["extra_data"]] *)
Definition get_extra_data (e : entry) : result string :=
  match extra_data e with
  | Some x => Ok x
  | None => Raise (KeyError "extra_data")
  end.

(** The namespace returned by [parser.parse_args()] *)
Record arguments := {
  log_source : string;
  include_precerts : bool;
  download_methods : string;
  starting_index : Z;
  cert_save_location : string;
  save_type : string
}.

(** The [choices] of [--download_methods] and of [--save_type]:
    [parse_args] accepts no other value for these two options. *)
Definition choices_accepted (args : arguments) : bool :=
  bool_decide (download_methods args ∈ ["dbAndSave"; "dbOnly"])
  && bool_decide (save_type args ∈ ["PEM"; "ASN1"]).

(** How lines 357-416 of [main] end, before anything of the job is
    recorded and before any [JobsManager] exists: the connection to the
    database is made, the zones and the organizations are read, and the
    command line is parsed.  The database is taken to answer, as in the
    rest of the run. *)
Inductive startup :=
  (** [MongoConnector()] finds no configuration file and calls
      [exit(1)] *)
  | NoConfigFile
  (** [result["SSL_Orgs"]] raises: [TypeError] when the configuration
      collection is empty, [KeyError] when its document has no such
      field *)
  | StartupRaises (x : exn)
  (** [parse_args] prints the help for [-h] and exits with status 0 *)
  | HelpRequested
  (** [parse_args] rejects the command line ([--log_source] missing, an
      unknown option, a starting index that is no integer) and exits
      with status 2 *)
  | UsageError
  (** the values of the options, defaults included *)
  | Parsed (args : arguments).

(** Truth value of a [str] *)
Definition truthy (s : string) : bool := negb (String.eqb s "").

Definition with_ct_log_type (d : certificate) (t : string) : certificate :=
  {| fingerprint_sha256 := fingerprint_sha256 d;
     subject_organization_name := subject_organization_name d;
     subject_common_names := subject_common_names d;
     subject_dns_names := subject_dns_names d;
     not_after := not_after d;
     raw := raw d;
     ct_log_type := t;
     zones := zones d;
     sources := sources d;
     source_id := source_id d;
     isExpired := isExpired d;
     marinus_updated := marinus_updated d |}.

Definition with_id_and_zones (d : certificate) (source : string) (id : Z)
    (cert_zones : list string) : certificate :=
  {| fingerprint_sha256 := fingerprint_sha256 d;
     subject_organization_name := subject_organization_name d;
     subject_common_names := subject_common_names d;
     subject_dns_names := subject_dns_names d;
     not_after := not_after d;
     raw := raw d;
     ct_log_type := ct_log_type d;
     zones := cert_zones;
     sources := sources d;
     source_id := <[source := id]> (source_id d);
     isExpired := isExpired d;
     marinus_updated := marinus_updated d |}.

(** ** Requests, the crawl loop and [main] *)

Section Crawler.
Context `{!Externals} (w : world).

(** One GET through the retrying session: the request is recorded and
    answered by the world. *)
Definition session_get_call (url : string) : prog http_outcome := λ s,
  (Returns (session_get w (requests_sent s) url),
   {| ct_collection := ct_collection s;
      trace := trace s ++ [Get url];
      requests_sent := S (requests_sent s);
      clock_reads := clock_reads s |}).

Definition read_clock : prog Z := λ s,
  (Returns (datetime_now w (clock_reads s)),
   {| ct_collection := ct_collection s;
      trace := trace s;
      requests_sent := requests_sent s;
      clock_reads := S (clock_reads s) |}).

(** [req.raise_for_status()] raises [HTTPError] for a 4xx or 5xx status. *)
Definition try_get (url : string) : prog (Z * text + raised) :=
  r ← session_get_call url;
  match r with
  | Fails e => mret (inr e)
  | Responds status_code body =>
      if (400 <=? status_code) && (status_code <? 600)
      then mret (inr HTTPError)
      else mret (inl (status_code, body))
  end.

(** The [except] clauses are tried in the order of the source.  The
    [download] flag only selects between [req.content] and [req.text],
    both represented by the body.  [depth] bounds the recursion of the
    [Timeout] clause. *)
Fixpoint make_https_request_rec (depth : nat) (url : string) (timeout_attempt : Z)
    : prog (option text) :=
  match depth with
  | O => out_of_fuel
  | S depth' =>
      req ← try_get url;
      match req with
      | inr e =>
          if isinstance e ClsConnectionError then
            emit RecordJobError;; exit 1
          else if isinstance e ClsHTTPError then
            mret None
          else if isinstance e ClsRequestException then
            emit RecordJobError;; exit 1
          else if isinstance e ClsTimeout then
            if timeout_attempt =? 0
            then make_https_request_rec depth' url 1
            else emit RecordJobError;; exit 1
          else
            emit RecordJobError;; exit 1
      | inl (status_code, body) =>
          if negb (status_code =? 200) then mret None
          else mret (Some body)
      end
  end.

Definition make_https_request (url : string) : prog (option text) :=
  make_https_request_rec 2 url 0.

Definition fetch_sth (url : string) : prog json :=
  response ← make_https_request (url +:+ "/ct/v1/get-sth");
  lift (json_loads response).

Definition fetch_certificate_batch (url : string) (starting_index ending_index : Z)
    : prog json :=
  let target :=
    url +:+ "/ct/v1/get-entries?start=" +:+ str starting_index
        +:+ "&end=" +:+ str ending_index in
  response ← make_https_request target;
  response ←
    match response with
    | None => emit (Sleep 600);; make_https_request target
    | Some _ => mret response
    end;
  match response with
  | None => emit RecordJobError;; exit 1
  | Some _ => lift (json_loads response)
  end.

(** The head of the [for] body: [None] when the entry is skipped by one
    of the two [continue] branches, otherwise the pair
    [(der_cert, cert_type)] that goes on to the parser. *)
Definition main_select_der (include_precerts : bool) (e : entry)
    : result (option (option (list byte) * Z)) :=
  '(der_cert, cert_type) ← get_cert_from_leaf (leaf_input e);
  if bool_decide (der_cert = None) && (cert_type =? 1) && negb include_precerts
  then Ok None
  else if bool_decide (der_cert = None) && (cert_type =? 0)
  then Ok None
  else if bool_decide (der_cert = None) && (cert_type =? 1)
  then
    x ← get_extra_data e;
    der_cert ← get_cert_from_extra_data x;
    Ok (Some (Some der_cert, cert_type))
  else Ok (Some (der_cert, cert_type)).

(** The call [insert_certificate(cert, source, ct_collection, cert_zones)]
    on the store of the run.  [datetime.now()] belongs to the update
    document, which is built in the [else] branch only, after
    [cert[source + "_id"]] has been read: the clock is read when the
    fingerprint is already stored, and not when the certificate is
    inserted. *)
Definition insert_certificate_call (cert : certificate) (source : string)
    (cert_zones : list string) : prog unit :=
  collection ← get_collection;
  if (find_count (by_fingerprint (fingerprint_sha256 cert)) collection =? 0)%nat
  then put_collection (collection ++ [cert])
  else
    match source_id cert !! source with
    | None => lift (Raise (KeyError (source +:+ "_id")))
    | Some _ =>
        now ← read_clock;
        updated ← lift (insert_certificate now cert source collection cert_zones);
        put_collection updated
    end.

(** One round of [for entry in certs["entries"]]: the new value of
    [current_index]. *)
Definition main_for_body (args : arguments) (source save_location download_method
    save_type : string) (e : entry) (current_index : Z) : prog Z :=
  selected ← lift (main_select_der (include_precerts args) e);
  match selected with
  | None => mret (current_index + 1)
  | Some (der_cert, cert_type) =>
      match parse_data der_cert source with
      | None => mret (current_index + 1)
      | Some cert =>
          let cert :=
            with_ct_log_type cert
              (if cert_type =? 1 then "PRE-CERTIFICATE" else "CERTIFICATE") in
          let cert_zones := check_zone_relevancy cert (distinct_zones w) in
          (if check_org_relevancy cert (SSL_Orgs w)
              || negb (bool_decide (cert_zones = []))
           then
             let cert := with_id_and_zones cert source current_index cert_zones in
             insert_certificate_call cert source cert_zones;;
             if String.eqb download_method "dbAndSave"
             then emit (WriteFile cert save_location save_type source)
             else mret ()
           else mret ());;
          mret (current_index + 1)
      end
  end.

Fixpoint main_for (args : arguments) (source save_location download_method
    save_type : string) (entries : list entry) (current_index : Z) : prog Z :=
  match entries with
  | [] => mret current_index
  | e :: rest =>
      current_index ←
        main_for_body args source save_location download_method save_type e
          current_index;
      main_for args source save_location download_method save_type rest
        current_index
  end.

(** [while current_index < sth_data["tree_size"]]; [fuel] bounds the
    number of rounds. *)
Fixpoint main_while (fuel : nat) (args : arguments) (source url save_location
    download_method save_type : string) (tree_size current_index : Z) : prog Z :=
  if current_index <? tree_size then
    match fuel with
    | O => out_of_fuel
    | S fuel' =>
        let ending_index := current_index + 256 in
        let ending_index :=
          if ending_index >? tree_size then tree_size else ending_index in
        certs ← fetch_certificate_batch ("https://" +:+ url) current_index ending_index;
        entries ← lift (get_entries certs);
        current_index ←
          main_for args source save_location download_method save_type entries
            current_index;
        main_while fuel' args source url save_location download_method save_type
          tree_size current_index
    end
  else mret current_index.

(** Lines 440-443 of [main]. *)
Definition main_starting_index (args : arguments) (collection : list certificate)
    (source : string) : option Z :=
  if starting_index args =? -1
  then fetch_starting_index collection source
  else Some (starting_index args).

(** [main] from line 418 on, for the arguments that [parse_args]
    returned; [main_script] below has the lines before. *)
Definition main (fuel : nat) (args : arguments) : prog unit :=
  let save_location := "/mnt/workspace/" in
  let download_method := "dbAndSave" in
  let save_type_ := "PEM" in
  let source := log_source args in
  ct_log_map ←
    match CT_LOG_MAP !! source with
    | Some url => mret url
    | None => exit 1
    end;
  let save_location :=
    if truthy (cert_save_location args)
    then
      let save_location := cert_save_location args in
      if negb (endswith save_location "/") then save_location +:+ "/"
      else save_location
    else save_location in
  download_method ←
    (if truthy (download_methods args)
     then emit (CheckSaveLocation save_location source);;
          mret (download_methods args)
     else mret download_method);
  let save_type_ :=
    if truthy (save_type args) then save_type args else save_type_ in
  emit RecordJobStart;;
  collection ← get_collection;
  let starting_index := main_starting_index args collection source in
  sth_data ← fetch_sth ("https://" +:+ ct_log_map);
  tree_size ← lift (get_tree_size sth_data);
  current_index ←
    match starting_index with
    | Some i => mret i
    | None => lift (Raise TypeError)
    end;
  main_while fuel args source ct_log_map save_location download_method save_type_
    tree_size current_index;;
  collection ← get_collection;
  put_collection (main_sweep (datetime_utcnow w) collection);;
  emit RecordJobComplete.

(** The whole of [main], lines 353-521: the start of the script, which
    can end the run by itself, and then the lines modelled by [main]
    above.  A value outside the [choices] of an option makes
    [parse_args] exit with status 2. *)
Definition main_script (fuel : nat) (st : startup) : prog unit :=
  match st with
  | NoConfigFile => exit 1
  | StartupRaises x => lift (Raise x)
  | HelpRequested => exit 0
  | UsageError => exit 2
  | Parsed args => if choices_accepted args then main fuel args else exit 2
  end.
End Crawler.

(** ** A concrete Base64 decoder and concrete collaborators

    The examples need an instance of [Externals].  [b64decode_rfc4648]
    decodes the standard alphabet of RFC 4648 with mandatory padding and
    raises on anything else; on well-formed input it agrees with
    [base64.b64decode]. *)

Definition b64_digit (c : ascii) : option N :=
  let n := N_of_ascii c in
  if (65 <=? n)%N && (n <=? 90)%N then Some (n - 65)%N
  else if (97 <=? n)%N && (n <=? 122)%N then Some (n - 71)%N
  else if (48 <=? n)%N && (n <=? 57)%N then Some (n + 4)%N
  else if (n =? 43)%N then Some 62%N
  else if (n =? 47)%N then Some 63%N
  else None.

Definition is_pad (c : ascii) : bool := (N_of_ascii c =? 61)%N.

Definition octet (n : N) : list byte :=
  match Byte.of_N (n mod 256) with
  | Some b => [b]
  | None => []
  end.

Fixpoint b64_quads (l : list ascii) : option (list byte) :=
  match l with
  | [] => Some []
  | a :: b :: c :: d :: rest =>
      match b64_digit a, b64_digit b with
      | Some x, Some y =>
          let hi := (x * 64 + y)%N in
          if is_pad c && is_pad d then
            match rest with
            | [] => Some (octet (hi / 16))
            | _ => None
            end
          else
            match b64_digit c with
            | None => None
            | Some z =>
                let mid := (hi * 64 + z)%N in
                if is_pad d then
                  match rest with
                  | [] => Some (octet (mid / 1024) ++ octet (mid / 4))
                  | _ => None
                  end
                else
                  match b64_digit d, b64_quads rest with
                  | Some t, Some tail =>
                      let n := (mid * 64 + t)%N in
                      Some (octet (n / 65536) ++ octet (n / 256) ++ octet n ++ tail)
                  | _, _ => None
                  end
            end
      | _, _ => None
      end
  | _ => None
  end.

Definition b64decode_rfc4648 (s : string) : result (list byte) :=
  match b64_quads (list_ascii_of_string s) with
  | Some b => Ok b
  | None => Raise BinasciiError
  end.

Definition example_certificate : certificate :=
  {| fingerprint_sha256 := "5f70bf18a086007016e948b04aed3b82103a36bea41755b6cddfaf10ace3c6ef";
     subject_organization_name := Some ["Example Org"];
     subject_common_names := Some ["www.example.com"];
     subject_dns_names := Some ["www.example.com"; "api.example.org"];
     not_after := 1000;
     raw := "MAAA";
     ct_log_type := "";
     zones := [];
     sources := ["aviator"];
     source_id := ∅;
     isExpired := false;
     marinus_updated := 0 |}.

(** A parser that recognises every non-empty byte string as
    [example_certificate] and nothing else. *)
Definition example_parse_data (der_cert : option (list byte)) (source : string)
    : option certificate :=
  match der_cert with
  | Some (_ :: _) => Some example_certificate
  | _ => None
  end.

Definition example_externals : Externals :=
  {| b64decode := b64decode_rfc4648;
     parse_data := example_parse_data;
     CT_LOG_MAP := {[ "aviator" := "ct.googleapis.com/aviator" ]} |}.

(** Leaves: an X.509 entry with declared length 1 and a consistent
    payload; the same with declared length 5; a precertificate entry. *)
Definition leaf_x509 : string := "AAAAAAAASZYC0gAAAAABMAAA".
Definition leaf_mismatch : string := "AAAAAAAASZYC0gAAAAAFMAAA".
Definition leaf_precert : string := "AAAAAAAASZYC0gABAAAAAA==".

Definition entry_x509 : entry := {| leaf_input := leaf_x509; extra_data := Some "" |}.
Definition entry_mismatch : entry := {| leaf_input := leaf_mismatch; extra_data := Some "" |}.
Definition entry_precert : entry :=
  {| leaf_input := leaf_precert; extra_data := Some "AAACMDEyMw==" |}.
Definition entry_empty_leaf : entry := {| leaf_input := ""; extra_data := None |}.

Definition example_args (start : Z) : arguments :=
  {| log_source := "aviator";
     include_precerts := true;
     download_methods := "dbOnly";
     starting_index := start;
     cert_save_location := "/mnt/workspace/";
     save_type := "PEM" |}.

Definition initial_state (collection : list certificate) : state :=
  {| ct_collection := collection; trace := []; requests_sent := 0; clock_reads := 0 |}.

(** [n] entries, all [entry_x509] but the one at [bad], which fails its
    length check. *)
Definition batch_with_mismatch (n bad : nat) : list entry :=
  <[bad := entry_mismatch]> (replicate n entry_x509).

(** A log of 300 entries that answers a request with exactly
    [end - start] entries: 256 for the first request and 44 for the
    second; the entry at index 150 fails its length check. *)
Definition world_exact_window : world :=
  {| session_get := λ k url,
       match k with
       | O => Responds 200 (Document (JsonEntries (batch_with_mismatch 256 150)))
       | _ => Responds 200 (Document (JsonEntries (replicate 44 entry_x509)))
       end;
     datetime_now := λ k, 5000 + Z.of_nat k;
     datetime_utcnow := 5000;
     distinct_zones := ["example.com"];
     SSL_Orgs := [] |}.


(** A log whose first answer is a read timeout and whose second answer
    would have been the batch. *)
Definition world_one_timeout : world :=
  {| session_get := λ k url,
       match k with
       | O => Fails ReadTimeout
       | _ => Responds 200 (Document (JsonEntries [entry_x509]))
       end;
     datetime_now := λ k, 5000 + Z.of_nat k;
     datetime_utcnow := 5000;
     distinct_zones := ["example.com"];
     SSL_Orgs := [] |}.

(** The same with a connect timeout, which is what the session raises
    when the connection attempts of the adapter have all timed out. *)
Definition world_connect_timeout : world :=
  {| session_get := λ k url,
       match k with
       | O => Fails ConnectTimeout
       | _ => Responds 200 (Document (JsonEntries [entry_x509]))
       end;
     datetime_now := λ k, 5000 + Z.of_nat k;
     datetime_utcnow := 5000;
     distinct_zones := ["example.com"];
     SSL_Orgs := [] |}.

(** Stored records carrying the ids 5, 12 and 9 of the source. *)
Definition record_with_id (fp : string) (id : Z) : certificate :=
  with_id_and_zones
    {| fingerprint_sha256 := fp;
       subject_organization_name := None;
       subject_common_names := None;
       subject_dns_names := None;
       not_after := 1000;
       raw := "";
       ct_log_type := "CERTIFICATE";
       zones := ["example.com"];
       sources := ["aviator"];
       source_id := ∅;
       isExpired := false;
       marinus_updated := 0 |}
    "aviator" id ["example.com"].

Definition example_collection : list certificate :=
  [record_with_id "aa" 5; record_with_id "bb" 12; record_with_id "cc" 9].

(** A certificate that only carries names, for the examples of the
    zone filter. *)
Definition cert_with_names (common_names dns_names : option (list string)) : certificate :=
  {| fingerprint_sha256 := "";
     subject_organization_name := None;
     subject_common_names := common_names;
     subject_dns_names := dns_names;
     not_after := 0;
     raw := "";
     ct_log_type := "";
     zones := [];
     sources := [];
     source_id := ∅;
     isExpired := false;
     marinus_updated := 0 |}.

(** Appending the elements of [l] that are not yet present, one by one:
    the common shape of the two loops of the filter. *)
Definition append_new (acc l : list string) : list string :=
  fold_left (λ acc z, if bool_decide (z ∈ acc) then acc else acc ++ [z]) l acc.

(** A record expired in [c] is still there, and still expired, in [c']. *)
Definition expired_kept (c c' : list certificate) : Prop :=
  ∀ i d, c !! i = Some d → isExpired d = true →
         ∃ d', c' !! i = Some d' ∧ isExpired d' = true.

(** ** Reasoning about programs

    [stable R m]: however [m] ends, the final state is related to the
    initial one by [R].  [returns m P]: from every state, [m] returns
    normally with a value satisfying [P]. *)
Definition stable {A} (R : state → state → Prop) (m : prog A) : Prop :=
  ∀ s o s', m s = (o, s') → R s s'.

Definition returns {A} (m : prog A) (P : A → Prop) : Prop :=
  ∀ s, ∃ a s', m s = (Returns a, s') ∧ P a.

(** The store keeps its expired records. *)
Definition keeps_expired (s s' : state) : Prop :=
  expired_kept (ct_collection s) (ct_collection s').

(** No request is sent. *)
Definition sends_nothing (s s' : state) : Prop :=
  requests_sent s' = requests_sent s
  ∧ requested (trace s') = requested (trace s).

(** The target of the request for the entries from [a] to [b]. *)
Definition entries_url (url : string) (a b : Z) : string :=
  ("https://" +:+ url) +:+ "/ct/v1/get-entries?start=" +:+ str a +:+ "&end=" +:+ str b.



(** The state once a GET to [url] has been sent. *)
Definition after_get (url : string) (s : state) : state :=
  {| ct_collection := ct_collection s;
     trace := trace s ++ [Get url];
     requests_sent := S (requests_sent s);
     clock_reads := clock_reads s |}.

(** The state once the job error has been recorded. *)
Definition after_job_error (s : state) : state :=
  {| ct_collection := ct_collection s;
     trace := trace s ++ [RecordJobError];
     requests_sent := requests_sent s;
     clock_reads := clock_reads s |}.

(** The crawl loop of the examples: source [aviator], 300 entries in the
    tree, starting at index 0 on an empty store. *)
Definition example_run (w : world) (fuel : nat) : outcome Z * state :=
  @main_while example_externals w fuel (example_args 0) "aviator"
    "ct.googleapis.com/aviator" "/mnt/workspace/" "dbOnly" "PEM" 300 0
    (initial_state []).

(** The 18 bytes of [leaf_x509]: 12 header bytes with entry type 0, the
    declared length 1, one certificate byte and the two trailing bytes. *)
Definition leaf_x509_bytes : list byte :=
  [x00; x00; x00; x00; x00; x00; x49; x96; x02; xd2; x00; x00;
   x00; x00; x01; x30; x00; x00].

(** A log of one entry whose leaf is the empty string. *)
Definition world_empty_leaf : world :=
  {| session_get := λ k url,
       match k with
       | O => Responds 200 (Document (JsonSth 1))
       | _ => Responds 200 (Document (JsonEntries [entry_empty_leaf]))
       end;
     datetime_now := λ k, 5000 + Z.of_nat k;
     datetime_utcnow := 5000;
     distinct_zones := ["example.com"];
     SSL_Orgs := [] |}.

(** [example_certificate] as the crawl of a source hands it to the
    upsert, found at index [id]. *)
Definition sighting (source : string) (id : Z) : certificate :=
  with_id_and_zones (with_ct_log_type example_certificate "CERTIFICATE")
    source id ["example.com"].

(** A store holding an earlier sighting of [example_certificate] by the
    source [aviator], an unrelated record, and an expired record. *)
Definition example_store : list certificate :=
  [sighting "aviator" 7;
   record_with_id "bb" 12;
   with_isExpired (record_with_id "cc" 9) true].

(** An entry whose leaf has the entry type 2, unknown to RFC 6962, with a
    consistent declared length, and the same with a wrong one. *)
Definition leaf_unknown_type : string := "AAAAAAAASZYC0gACAAABMAAA".
Definition leaf_unknown_type_mismatch : string := "AAAAAAAASZYC0gACAAAFMAAA".
Definition leaf_unknown_type_bytes : list byte :=
  [x00; x00; x00; x00; x00; x00; x49; x96; x02; xd2; x00; x02;
   x00; x00; x01; x30; x00; x00].

Definition entry_unknown_type : entry :=
  {| leaf_input := leaf_unknown_type; extra_data := None |}.
Definition entry_unknown_type_mismatch : entry :=
  {| leaf_input := leaf_unknown_type_mismatch; extra_data := None |}.

(** A precertificate entry without extra data, and one whose extra data
    is not Base64. *)
Definition entry_precert_no_extra : entry :=
  {| leaf_input := leaf_precert; extra_data := None |}.
Definition entry_precert_bad_extra : entry :=
  {| leaf_input := leaf_precert; extra_data := Some "A" |}.

(** A log whose tree head cannot be fetched: every answer is a 404. *)
Definition world_unavailable : world :=
  {| session_get := λ k url, Responds 404 Malformed;
     datetime_now := λ k, 5000 + Z.of_nat k;
     datetime_utcnow := 5000;
     distinct_zones := ["example.com"];
     SSL_Orgs := [] |}.

(** A log that answers every request with an empty list of entries. *)
Definition world_no_entries : world :=
  {| session_get := λ k url, Responds 200 (Document (JsonEntries []));
     datetime_now := λ k, 5000 + Z.of_nat k;
     datetime_utcnow := 5000;
     distinct_zones := ["example.com"];
     SSL_Orgs := [] |}.

(** The state once [ev] has been recorded. *)
Definition after_event (ev : event) (s : state) : state :=
  {| ct_collection := ct_collection s;
     trace := trace s ++ [ev];
     requests_sent := requests_sent s;
     clock_reads := clock_reads s |}.

(** A log that answers every request with 257 entries, whatever the
    window. *)
Definition world_overshoot : world :=
  {| session_get := λ k url,
       Responds 200 (Document (JsonEntries (replicate 257 entry_x509)));
     datetime_now := λ k, 5000 + Z.of_nat k;
     datetime_utcnow := 5000;
     distinct_zones := ["example.com"];
     SSL_Orgs := [] |}.

(** A run that tracks a zone and an organization foreign to
    [example_certificate]. *)
Definition world_untracked : world :=
  {| session_get := λ k url, Responds 200 (Document (JsonEntries [entry_x509]));
     datetime_now := λ k, 5000 + Z.of_nat k;
     datetime_utcnow := 5000;
     distinct_zones := ["unrelated.net"];
     SSL_Orgs := ["Another Org"] |}.

(** How a program ended, without the value it returned. *)
Inductive ending :=
  | Returned
  | RaisedWith (e : exn)
  | ExitedWith (code : Z)
  | Starved.

Definition ending_of {A} (o : outcome A) : ending :=
  match o with
  | Returns _ => Returned
  | Raises e => RaisedWith e
  | Exits code => ExitedWith code
  | OutOfFuel => Starved
  end.

(** [ensures m Q]: every run of [m] relates its initial state, its ending
    and its final state by [Q]. *)
Definition ensures {A} (m : prog A) (Q : state → ending → state → Prop) : Prop :=
  ∀ s o s', m s = (o, s') → Q s (ending_of o) s'.

(** Events other than the start and the completion of the job, and runs
    that record only such events. *)
Definition quiet (ev : event) : Prop :=
  ev ≠ RecordJobStart ∧ ev ≠ RecordJobComplete.

Definition quietly (s s' : state) : Prop :=
  ∃ t, trace s' = trace s ++ t ∧ Forall quiet t.


(** An exit has the status 1 and the job error as its last record. *)
Definition exits_recorded (s : state) (e : ending) (s' : state) : Prop :=
  ∀ code, e = ExitedWith code →
          code = 1 ∧ list.last (trace s') = Some RecordJobError.

(** A log of two entries that answers the tree head and then the one
    batch. *)
Definition world_two_entries : world :=
  {| session_get := λ k url,
       match k with
       | O => Responds 200 (Document (JsonSth 2))
       | _ => Responds 200 (Document (JsonEntries [entry_x509; entry_mismatch]))
       end;
     datetime_now := λ k, 5000 + Z.of_nat k;
     datetime_utcnow := 5000;
     distinct_zones := ["example.com"];
     SSL_Orgs := [] |}.

(** A log that answers the tree head and then fails with a connection
    error. *)
Definition world_connection_lost : world :=
  {| session_get := λ k url,
       match k with
       | O => Responds 200 (Document (JsonSth 2))
       | _ => Fails ConnectionError
       end;
     datetime_now := λ k, 5000 + Z.of_nat k;
     datetime_utcnow := 5000;
     distinct_zones := ["example.com"];
     SSL_Orgs := [] |}.

(** ** The MongoDB connector

    [libs3/MongoConnector.py] and [libs3/RemoteMongoConnector.py] wrap
    five calls of the driver in the same loop: the call is tried again
    after a dropped connection ([AutoReconnect]), with a sleep of 5
    seconds before each new attempt, until [num_tries] has reached 5.
    The queries, projections and answers of the driver are parameters. *)
Section Connector.
Context {Collection Query Projection Answer : Type}.

(** The driver calls made by the wrappers, with the arguments that are
    passed on: [find(query, filter).batch_size(n)] and its shorter
    forms, [find_one], [count_documents], [distinct], [insert_one]. *)
Inductive driver_call :=
  | Find (collection : Collection) (query : Query) (filter : option Projection)
      (batch_size : option Z)
  | FindOne (collection : Collection) (query : Query) (filter : option Projection)
  | CountDocuments (collection : Collection) (query : Query)
  | Distinct (collection : Collection) (field : string) (query : option Query)
  | InsertOne (collection : Collection) (document : Query).

(** What a call of the driver does: it answers, it raises
    [AutoReconnect], or it raises something else. *)
Inductive driver_answer :=
  | Answered (r : Answer)
  | AutoReconnect
  | OtherFailure.

Inductive connector_event :=
  | Called (c : driver_call)
  | Slept (seconds : Z).

Record connector_state := {
  driver_calls : nat;
  connector_trace : list connector_event
}.

Inductive connector_outcome :=
  | Got (r : Answer)
  | GaveUp (code : Z)
  | Failed
  | OutOfRounds.

(** [driver k c] is what the [k]-th call of the run does when it is
    [c]. *)
Context (driver : nat → driver_call → driver_answer).

Definition after_call (c : driver_call) (s : connector_state) : connector_state :=
  {| driver_calls := S (driver_calls s);
     connector_trace := connector_trace s ++ [Called c] |}.

Definition after_sleep (seconds : Z) (s : connector_state) : connector_state :=
  {| driver_calls := driver_calls s;
     connector_trace := connector_trace s ++ [Slept seconds] |}.

(** [while not success: try: result = call; success = True
    except AutoReconnect: ...]; [fuel] bounds the number of rounds. *)
Fixpoint retry_loop (fuel : nat) (c : driver_call) (num_tries : Z) (s : connector_state)
    : connector_outcome * connector_state :=
  match fuel with
  | O => (OutOfRounds, s)
  | S fuel' =>
      match driver (driver_calls s) c with
      | Answered r => (Got r, after_call c s)
      | AutoReconnect =>
          if num_tries <? 5
          then retry_loop fuel' c (num_tries + 1) (after_sleep 5 (after_call c s))
          else (GaveUp 1, after_call c s)
      | OtherFailure => (Failed, after_call c s)
      end
  end.

Definition perform_find (fuel : nat) (collection : Collection) (query : Query)
    (filter : option Projection) (batch_size : option Z) :=
  retry_loop fuel (Find collection query filter batch_size) 0.

(** [RemoteMongoConnector.perform_find] has no [batch_size]. *)
Definition remote_perform_find (fuel : nat) (collection : Collection) (query : Query)
    (filter : option Projection) :=
  retry_loop fuel (Find collection query filter None) 0.

Definition perform_find_one (fuel : nat) (collection : Collection) (query : Query)
    (filter : option Projection) :=
  retry_loop fuel (FindOne collection query filter) 0.

Definition perform_count (fuel : nat) (collection : Collection) (query : Query) :=
  retry_loop fuel (CountDocuments collection query) 0.

Definition perform_distinct (fuel : nat) (collection : Collection) (field : string)
    (query : option Query) :=
  retry_loop fuel (Distinct collection field query) 0.

Definition perform_insert (fuel : nat) (collection : Collection) (query : Query) :=
  retry_loop fuel (InsertOne collection query) 0.

(** The calls and sleeps of [k] dropped attempts. *)
Fixpoint dropped_attempts (k : nat) (c : driver_call) : list connector_event :=
  match k with
  | O => []
  | S k' => Called c :: Slept 5 :: dropped_attempts k' c
  end.

(** The seconds slept in a trace. *)
Definition seconds_slept (t : list connector_event) : Z :=
  fold_right (λ ev acc, match ev with Slept n => n + acc | Called _ => acc end) 0 t.
End Connector.

(** A driver over strings that drops the connection [drops] times and
    then answers 42. *)
Definition flaky_driver (drops : nat) (k : nat)
    (c : @driver_call string string string) : @driver_answer Z :=
  if (k <? drops)%nat then AutoReconnect else Answered 42.

Definition connector_start : @connector_state string string string :=
  {| driver_calls := 0; connector_trace := [] |}.

(** * Properties *)

(** ** Bytes and slices *)

Lemma int_from_bytes_big_acc_nonneg (b : list byte) (acc : Z) :
  0 ≤ acc → 0 ≤ fold_left (λ acc x, acc * 256 + byte_to_Z x) b acc.
Proof.
  revert acc. induction b as [|x b IH]; intros acc Hacc; simpl; [done|].
  apply IH. unfold byte_to_Z. lia.
Qed.

Lemma int_from_bytes_big_nonneg (b : list byte) : 0 ≤ int_from_bytes_big b.
Proof. apply int_from_bytes_big_acc_nonneg. lia. Qed.

Lemma length_slice {A} (lo hi : nat) (b : list A) :
  length (slice lo hi b) = ((hi - lo) `min` (length b - lo))%nat.
Proof. unfold slice. by rewrite length_take, length_drop. Qed.

Lemma slice_short_nil {A} (lo hi : nat) (b : list A) :
  (length b ≤ lo)%nat → slice lo hi b = [].
Proof. intros H. unfold slice. by rewrite drop_ge, take_nil. Qed.

Lemma index_Ok (b : list byte) (i : nat) :
  (i < length b)%nat → ∃ x, index b i = Ok x.
Proof.
  intros H. unfold index.
  destruct (lookup_lt_is_Some_2 b i H) as [x ->]. by exists x.
Qed.

Lemma index_Raise (b : list byte) (i : nat) :
  (length b ≤ i)%nat → index b i = Raise IndexError.
Proof. intros H. unfold index. by rewrite lookup_ge_None_2. Qed.

(** ** The leaf header *)

Lemma read_leaf_header_Ok (leaf : list byte) :
  (2 ≤ length leaf)%nat →
  ∃ h, read_leaf_header leaf = Ok h
       ∧ LogEntryType h = int_from_bytes_big (slice 10 12 leaf)
       ∧ Entry h = drop 12 leaf.
Proof.
  intros H. unfold read_leaf_header.
  destruct (index_Ok leaf 0) as [v ->]; [lia|].
  destruct (index_Ok leaf 1) as [m ->]; [lia|].
  simpl. eexists. split; [reflexivity|]. by split.
Qed.

Lemma read_leaf_header_Raise (leaf : list byte) :
  (length leaf < 2)%nat → read_leaf_header leaf = Raise IndexError.
Proof.
  intros H. unfold read_leaf_header.
  destruct leaf as [|v [|m leaf]]; simpl in *; try lia; reflexivity.
Qed.

Section DecoderProperties.
Context `{!Externals}.

(** What [get_cert_from_leaf] computes once the header has been read. *)
Lemma get_cert_from_leaf_unfold (leaf : string) (data : list byte) :
  b64decode leaf = Ok data →
  (2 ≤ length data)%nat →
  get_cert_from_leaf leaf =
    let cert_type := int_from_bytes_big (slice 10 12 data) in
    if cert_type =? 1 then Ok (None, cert_type)
    else if negb (int_from_bytes_big (slice 0 3 (drop 12 data))
                  =? Z.of_nat (length (drop 15 data)) - 2)
         then Ok (None, cert_type)
         else Ok (Some (drop 15 data), cert_type).
Proof.
  intros Hdec Hlen. unfold get_cert_from_leaf. rewrite Hdec. simpl.
  destruct (read_leaf_header_Ok data Hlen) as (h & -> & Hty & Hen).
  simpl. rewrite Hty, Hen. unfold slice_from.
  replace (drop 15 data) with (drop 3 (drop 12 data)) by by rewrite drop_drop.
  reflexivity.
Qed.

Lemma get_cert_from_leaf_too_short (leaf : string) (data : list byte) :
  b64decode leaf = Ok data →
  (length data < 2)%nat →
  get_cert_from_leaf leaf = Raise IndexError.
Proof.
  intros Hdec Hlen. unfold get_cert_from_leaf. rewrite Hdec. simpl.
  by rewrite read_leaf_header_Raise.
Qed.

Lemma get_cert_from_leaf_short (leaf : string) (data : list byte) :
  b64decode leaf = Ok data →
  (2 ≤ length data < 12)%nat →
  get_cert_from_leaf leaf = Ok (None, int_from_bytes_big (slice 10 12 data)).
Proof.
  intros Hdec Hlen.
  rewrite (get_cert_from_leaf_unfold leaf data Hdec) by lia. simpl.
  destruct (_ =? 1); [done|].
  rewrite !drop_ge by lia. simpl. reflexivity.
Qed.
Lemma main_select_der_skips (include : bool) (e : entry) (t : Z) :
  get_cert_from_leaf (leaf_input e) = Ok (None, t) →
  t = 0 ∨ (t = 1 ∧ include = false) →
  main_select_der include e = Ok None.
Proof.
  intros Hleaf Ht. unfold main_select_der. rewrite Hleaf. simpl.
  destruct Ht as [->|[-> ->]]; reflexivity.
Qed.

(** C2, as amended: for an X.509 leaf (entry type 0) whose declared
    3-byte length [L] equals the length of the remaining payload minus
    2, [get_cert_from_leaf] returns the whole remaining payload: a
    byte string of length [L + 2], made of the [L] declared certificate
    bytes followed by the two trailing bytes, which are not removed. *)
Theorem C2_x509_leaf_keeps_trailing_bytes (leaf : string) (data : list byte) (L : Z) :
  b64decode leaf = Ok data →
  int_from_bytes_big (slice 10 12 data) = 0 →
  L = int_from_bytes_big (slice 0 3 (drop 12 data)) →
  L = Z.of_nat (length (drop 15 data)) - 2 →
  get_cert_from_leaf leaf = Ok (Some (drop 15 data), 0)
  ∧ Z.of_nat (length (drop 15 data)) = L + 2
  ∧ Z.of_nat (length (take (Z.to_nat L) (drop 15 data))) = L
  ∧ length (drop (Z.to_nat L) (drop 15 data)) = 2%nat.
Proof.
  intros Hdec Hty HL Hlen.
  assert (0 ≤ L) as HL0 by (rewrite HL; apply int_from_bytes_big_nonneg).
  assert (17 ≤ length data)%nat as Hdata.
  { rewrite length_drop in Hlen. lia. }
  split.
  - rewrite (get_cert_from_leaf_unfold leaf data Hdec) by lia.
    simpl. rewrite Hty. simpl. rewrite <- HL.
    destruct (Z.eqb_spec L (Z.of_nat (length (drop 15 data)) - 2)); [done|lia].
  - rewrite length_drop in Hlen.
    rewrite length_take, !length_drop. lia.
Qed.

(** C9, as amended: a buffer of fewer than 2 bytes makes
    [read_leaf_header] raise [IndexError], which [get_cert_from_leaf]
    lets through; a buffer of 2 to 11 bytes decodes to an absent
    certificate whose entry type is the number read from the bytes at
    offsets 10 and 11 (0 when the buffer has at most 10 bytes), and the
    caller skips the entry when that type is 0, or is 1 with
    precertificates excluded. *)
Theorem C9_short_leaf_buffer (leaf : string) (data : list byte) :
  b64decode leaf = Ok data →
  (length data < 12)%nat →
  ((length data < 2)%nat →
     read_leaf_header data = Raise IndexError
     ∧ get_cert_from_leaf leaf = Raise IndexError)
  ∧ ((2 ≤ length data)%nat →
     let t := int_from_bytes_big (slice 10 12 data) in
     get_cert_from_leaf leaf = Ok (None, t)
     ∧ ((length data ≤ 10)%nat → t = 0)
     ∧ ∀ include e, leaf_input e = leaf →
         t = 0 ∨ (t = 1 ∧ include = false) →
         main_select_der include e = Ok None).
Proof.
  intros Hdec Hlen. split.
  - intros Hshort. split.
    + by apply read_leaf_header_Raise.
    + by apply (get_cert_from_leaf_too_short leaf data).
  - intros Hlong t.
    assert (get_cert_from_leaf leaf = Ok (None, t)) as Hleaf.
    { apply get_cert_from_leaf_short; [done|lia]. }
    split; [done|]. split.
    + intros H10. unfold t. by rewrite slice_short_nil.
    + intros include e <- Ht. by apply (main_select_der_skips include e t).
Qed.

Lemma get_cert_from_extra_data_Ok (x : string) (data : list byte) :
  b64decode x = Ok data →
  get_cert_from_extra_data x =
    Ok (slice 3 (Z.to_nat (int_from_bytes_big (slice 0 3 data) + 4)) data).
Proof. intros Hdec. unfold get_cert_from_extra_data. by rewrite Hdec. Qed.

Lemma main_select_der_precert (e : entry) (leaf_data : list byte) (x : string)
    (data : list byte) :
  b64decode (leaf_input e) = Ok leaf_data →
  (2 ≤ length leaf_data)%nat →
  int_from_bytes_big (slice 10 12 leaf_data) = 1 →
  extra_data e = Some x →
  b64decode x = Ok data →
  main_select_der true e =
    Ok (Some (Some (slice 3 (Z.to_nat (int_from_bytes_big (slice 0 3 data) + 4)) data),
              1)).
Proof.
  intros Hleaf Hlen Hty Hx Hdec. unfold main_select_der.
  rewrite (get_cert_from_leaf_unfold _ leaf_data Hleaf Hlen).
  simpl. rewrite Hty. simpl.
  unfold get_extra_data. rewrite Hx. simpl.
  by rewrite (get_cert_from_extra_data_Ok x data Hdec).
Qed.

(** C6: for a precertificate entry (entry type 1) processed with
    precertificates included, the certificate handed on to the parser
    is the slice [3 : L+4] of the decoded [extra_data], [L] being the
    big-endian value of its first 3 bytes; when the data reaches that
    far, the slice has [L + 1] bytes and so differs from [3 : L+3]. *)
Theorem C6_precert_slice_convention (e : entry) (leaf_data : list byte) (x : string)
    (data : list byte) (L : Z) :
  b64decode (leaf_input e) = Ok leaf_data →
  (2 ≤ length leaf_data)%nat →
  int_from_bytes_big (slice 10 12 leaf_data) = 1 →
  extra_data e = Some x →
  b64decode x = Ok data →
  L = int_from_bytes_big (slice 0 3 data) →
  main_select_der true e = Ok (Some (Some (slice 3 (Z.to_nat (L + 4)) data), 1))
  ∧ ((Z.to_nat (L + 4) ≤ length data)%nat →
     Z.of_nat (length (slice 3 (Z.to_nat (L + 4)) data)) = L + 1
     ∧ slice 3 (Z.to_nat (L + 4)) data ≠ slice 3 (Z.to_nat (L + 3)) data).
Proof.
  intros Hleaf Hlen Hty Hx Hdec ->. split.
  - by apply (main_select_der_precert e leaf_data x data).
  - intros Hfar.
    pose proof (int_from_bytes_big_nonneg (slice 0 3 data)) as HL0.
    assert (Z.of_nat
              (length (slice 3 (Z.to_nat (int_from_bytes_big (slice 0 3 data) + 4)) data))
            = int_from_bytes_big (slice 0 3 data) + 1) as Hlen4.
    { rewrite length_slice. lia. }
    split; [done|].
    intros Heq. apply (f_equal length) in Heq.
    rewrite !length_slice in Heq. lia.
Qed.

(** C10, as amended: the precertificate path validates no length, and
    its only failure is the one of the Base64 decoder.  The result of
    [get_cert_from_extra_data] is decided by [b64decode] alone: an
    [extra_data] that does not decode raises the decoder's error, in the
    function and in the loop that called it; an [extra_data] that
    decodes always succeeds with the slice [3 : L+4] of the decoded
    bytes, whose length is the smaller of [L + 1] and what is left after
    offset 3: it is shorter than [L + 1] when the data has fewer than
    [L + 4] bytes, and empty when the data has at most 3 bytes; the
    caller is handed that slice with entry type 1 and skips nothing. *)
Theorem C10_precert_no_length_validation (x : string) :
  get_cert_from_extra_data x
  = match b64decode x with
    | Raise err => Raise err
    | Ok data => Ok (slice 3 (Z.to_nat (int_from_bytes_big (slice 0 3 data) + 4)) data)
    end
  ∧ (∀ err e leaf_data,
       b64decode x = Raise err →
       b64decode (leaf_input e) = Ok leaf_data →
       (2 ≤ length leaf_data)%nat →
       int_from_bytes_big (slice 10 12 leaf_data) = 1 →
       extra_data e = Some x →
       main_select_der true e = Raise err)
  ∧ ∀ data L,
      b64decode x = Ok data →
      L = int_from_bytes_big (slice 0 3 data) →
      get_cert_from_extra_data x = Ok (slice 3 (Z.to_nat (L + 4)) data)
      ∧ length (slice 3 (Z.to_nat (L + 4)) data)
        = ((Z.to_nat L + 1) `min` (length data - 3))%nat
      ∧ (Z.of_nat (length data) < L + 4 →
         Z.of_nat (length (slice 3 (Z.to_nat (L + 4)) data)) < L + 1)
      ∧ ((length data ≤ 3)%nat → slice 3 (Z.to_nat (L + 4)) data = [])
      ∧ ∀ e leaf_data,
          b64decode (leaf_input e) = Ok leaf_data →
          (2 ≤ length leaf_data)%nat →
          int_from_bytes_big (slice 10 12 leaf_data) = 1 →
          extra_data e = Some x →
          main_select_der true e = Ok (Some (Some (slice 3 (Z.to_nat (L + 4)) data), 1)).
Proof.
  split; [unfold get_cert_from_extra_data; by destruct (b64decode x)|].
  split.
  { intros err e leaf_data Herr Hleaf Hlen Hty Hx. unfold main_select_der.
    rewrite (get_cert_from_leaf_unfold _ leaf_data Hleaf Hlen).
    simpl. rewrite Hty. simpl.
    unfold get_extra_data. rewrite Hx. simpl.
    unfold get_cert_from_extra_data. by rewrite Herr. }
  intros data L Hdec ->.
  pose proof (int_from_bytes_big_nonneg (slice 0 3 data)) as HL0.
  split; [by apply get_cert_from_extra_data_Ok|].
  split; [rewrite length_slice; lia|].
  split; [intros Hshort; rewrite length_slice; lia|].
  split; [intros Hshort; by apply slice_short_nil|].
  intros e leaf_data Hleaf Hlen Hty Hx.
  by apply (main_select_der_precert e leaf_data x data).
Qed.
End DecoderProperties.

(** ** The relevancy filter *)

Lemma endswith_spec (s suffix : string) :
  endswith s suffix = true ↔ ∃ p, s = p +:+ suffix.
Proof.
  induction s as [|a s IH].
  - change (endswith "" suffix) with (String.eqb "" suffix || false).
    rewrite orb_false_r, String.eqb_eq. split.
    + intros <-. by exists "".
    + intros [p Hp]. destruct p; simpl in Hp; [done|discriminate].
  - change (endswith (String a s) suffix)
      with (String.eqb (String a s) suffix || endswith s suffix).
    rewrite orb_true_iff, String.eqb_eq, IH. split.
    + intros [<-|[p ->]]; [by exists ""|by exists (String a p)].
    + intros [p Hp]. destruct p as [|b p]; simpl in Hp; [by left|].
      right. exists p. by injection Hp.
Qed.

Lemma zone_test_spec (cn zone : string) :
  zone_test cn zone = true ↔ is_subdomain_or_equal cn zone.
Proof.
  unfold zone_test, is_subdomain_or_equal.
  by rewrite orb_true_iff, String.eqb_eq, endswith_spec.
Qed.

Lemma append_new_app (acc l1 l2 : list string) :
  append_new acc (l1 ++ l2) = append_new (append_new acc l1) l2.
Proof. unfold append_new. apply fold_left_app. Qed.

Lemma for_zone_append_new (cn : string) (zones acc : list string) :
  for_zone cn zones acc = append_new acc (List.filter (zone_test cn) zones).
Proof.
  unfold for_zone, append_new. revert acc.
  induction zones as [|z zones IH]; intros acc; simpl; [done|].
  destruct (zone_test cn z); simpl; apply IH.
Qed.

Lemma for_cn_append_new (names zones acc : list string) :
  for_cn names zones acc = append_new acc (matches_in_visiting_order names zones).
Proof.
  unfold for_cn, matches_in_visiting_order. revert acc.
  induction names as [|cn names IH]; intros acc; simpl; [done|].
  by rewrite IH, for_zone_append_new, append_new_app.
Qed.

Lemma filter_filter_and {A} (p q r : A → bool) (l : list A) :
  (∀ y, p y = q y && r y) →
  List.filter p l = List.filter q (List.filter r l).
Proof.
  intros Hp. induction l as [|x l IH]; simpl; [done|].
  rewrite Hp. destruct (r x); simpl.
  - rewrite andb_true_r. destruct (q x); by rewrite IH.
  - by rewrite andb_false_r.
Qed.

Lemma append_new_keep_first_seen (acc l : list string) :
  append_new acc l
  = acc ++ List.filter (λ y, negb (bool_decide (y ∈ acc))) (keep_first_seen l).
Proof.
  revert acc. induction l as [|z l IH]; intros acc.
  - simpl. by rewrite app_nil_r.
  - change (append_new acc (z :: l))
      with (append_new (if bool_decide (z ∈ acc) then acc else acc ++ [z]) l).
    simpl. destruct (bool_decide_reflect (z ∈ acc)) as [Hin|Hout]; simpl.
    + rewrite IH. f_equal.
      rewrite <- filter_filter_and with (p := λ y, negb (bool_decide (y ∈ acc))); [done|].
      intros y. destruct (bool_decide_reflect (y ∈ acc)) as [Hy|Hy]; simpl; [done|].
      symmetry. apply negb_true_iff, String.eqb_neq. by intros ->.
    + rewrite IH, <- app_assoc. simpl. do 2 f_equal.
      apply filter_filter_and. intros y.
      destruct (String.eqb_spec y z) as [->|Hne]; simpl.
      * rewrite andb_false_r. apply negb_false_iff, bool_decide_eq_true.
        apply elem_of_app. right. by apply list_elem_of_singleton.
      * rewrite andb_true_r. f_equal. apply bool_decide_ext.
        rewrite elem_of_app, list_elem_of_singleton. tauto.
Qed.

Lemma elem_of_keep_first_seen (l : list string) (z : string) :
  z ∈ keep_first_seen l ↔ z ∈ l.
Proof.
  induction l as [|x l IH]; simpl; [done|].
  rewrite !elem_of_cons, <- IH, list_elem_of_In, filter_In, <- list_elem_of_In.
  rewrite negb_true_iff, String.eqb_neq.
  destruct (decide (z = x)); tauto.
Qed.

Lemma NoDup_List_filter {A} (p : A → bool) (l : list A) :
  NoDup l → NoDup (List.filter p l).
Proof.
  induction 1 as [|x l Hx Hl IH]; simpl; [constructor|].
  destruct (p x); [|done]. constructor; [|done].
  rewrite list_elem_of_In, filter_In, <- list_elem_of_In. tauto.
Qed.

Lemma NoDup_keep_first_seen (l : list string) : NoDup (keep_first_seen l).
Proof.
  induction l as [|x l IH]; simpl; constructor.
  - rewrite list_elem_of_In, filter_In, negb_true_iff, String.eqb_neq. tauto.
  - by apply NoDup_List_filter.
Qed.

Lemma elem_of_matches_in_visiting_order (names zones : list string) (z : string) :
  z ∈ matches_in_visiting_order names zones
  ↔ z ∈ zones ∧ ∃ cn, cn ∈ names ∧ is_subdomain_or_equal cn z.
Proof.
  unfold matches_in_visiting_order.
  rewrite list_elem_of_In, in_flat_map. split.
  - intros (cn & Hcn & Hz). apply filter_In in Hz as [Hz Ht].
    rewrite <- !list_elem_of_In in *. rewrite zone_test_spec in Ht. eauto.
  - intros (Hz & cn & Hcn & Ht). exists cn.
    rewrite filter_In, <- !list_elem_of_In, zone_test_spec. eauto.
Qed.

Lemma check_zone_relevancy_first_seen (cert : certificate) (zones : list string) :
  check_zone_relevancy cert zones
  = keep_first_seen (matches_in_visiting_order (candidate_names cert) zones).
Proof.
  transitivity (append_new [] (matches_in_visiting_order (candidate_names cert) zones)).
  - unfold check_zone_relevancy, candidate_names, matches_in_visiting_order.
    rewrite flat_map_app, append_new_app.
    destruct (subject_common_names cert) as [cns|],
             (subject_dns_names cert) as [dns|]; simpl;
      by rewrite ?for_cn_append_new.
  - rewrite append_new_keep_first_seen. simpl.
    induction (keep_first_seen _) as [|x l IH]; simpl; [done|]. by f_equal.
Qed.

(** C5: [check_zone_relevancy] returns exactly the tracked zones that some
    candidate name (common names first, then DNS names) equals or ends
    with after a dot; the boundary is the dot, so ["a.b.example.com"]
    matches ["example.com"] and ["notexample.com"] does not; the result
    has no repetition and lists the zones in the order of their first
    match over both name lists. *)
Theorem C5_check_zone_relevancy_exact (cert : certificate) (zones : list string) :
  (∀ z, z ∈ check_zone_relevancy cert zones
        ↔ z ∈ zones ∧ ∃ cn, cn ∈ candidate_names cert ∧ is_subdomain_or_equal cn z)
  ∧ NoDup (check_zone_relevancy cert zones)
  ∧ check_zone_relevancy cert zones
    = keep_first_seen (matches_in_visiting_order (candidate_names cert) zones)
  ∧ check_zone_relevancy (cert_with_names (Some ["a.b.example.com"]) None) ["example.com"]
    = ["example.com"]
  ∧ check_zone_relevancy (cert_with_names (Some ["notexample.com"]) None) ["example.com"]
    = []
  ∧ check_zone_relevancy (cert_with_names None (Some ["notexample.com"])) ["example.com"]
    = [].
Proof.
  rewrite check_zone_relevancy_first_seen. split; [|split; [|split]].
  - intros z. by rewrite elem_of_keep_first_seen, elem_of_matches_in_visiting_order.
  - apply NoDup_keep_first_seen.
  - reflexivity.
  - by vm_compute.
Qed.

(** ** The certificate store *)

Lemma find_count_update_many (query p : certificate → bool)
    (update : certificate → certificate) (c : list certificate) :
  (∀ d, p (update d) = p d) →
  find_count p (update_many query update c) = find_count p c.
Proof.
  intros Hp. unfold find_count, update_many.
  induction c as [|d c IH]; simpl; [done|].
  assert (p (if query d then update d else d) = p d) as ->.
  { destruct (query d); [apply Hp|done]. }
  destruct (p d); simpl; by rewrite IH.
Qed.

Lemma find_count_app (p : certificate → bool) (c1 c2 : list certificate) :
  find_count p (c1 ++ c2) = (find_count p c1 + find_count p c2)%nat.
Proof. unfold find_count. by rewrite filter_app, length_app. Qed.

Lemma lookup_update_many (query : certificate → bool)
    (update : certificate → certificate) (c : list certificate) (i : nat) :
  update_many query update c !! i
  = (λ d, if query d then update d else d) <$> c !! i.
Proof. unfold update_many. apply list_lookup_fmap. Qed.

Lemma elem_of_addToSet (l : list string) (x y : string) :
  y ∈ addToSet l x ↔ y ∈ l ∨ y = x.
Proof.
  unfold addToSet. destruct (bool_decide_reflect (x ∈ l)) as [Hin|Hout].
  - split; [tauto|]. by intros [?| ->].
  - rewrite elem_of_app, list_elem_of_singleton. tauto.
Qed.

(** C3: upserting a certificate whose fingerprint is already stored
    creates no record: the collection keeps its length and the number of
    records with that fingerprint (1 stays 1); every record with that
    fingerprint gets the certificate's [{source}_id] and [ct_log_type],
    the current zone list in place of the old one, [marinus_updated] set
    to now, and the source added to [sources] with every earlier source
    kept; the other records are untouched.  Upserting a fingerprint that
    is not stored appends the certificate as a new record. *)
Theorem C3_upsert_by_fingerprint (now : Z) (cert : certificate) (source : string)
    (collection : list certificate) (cert_zones : list string) (id : Z) :
  source_id cert !! source = Some id →
  let fp := fingerprint_sha256 cert in
  (find_count (by_fingerprint fp) collection = 0%nat →
     insert_certificate now cert source collection cert_zones = Ok (collection ++ [cert])
     ∧ find_count (by_fingerprint fp) (collection ++ [cert]) = 1%nat)
  ∧ (find_count (by_fingerprint fp) collection ≠ 0%nat →
     ∃ updated,
       insert_certificate now cert source collection cert_zones = Ok updated
       ∧ length updated = length collection
       ∧ find_count (by_fingerprint fp) updated = find_count (by_fingerprint fp) collection
       ∧ ∀ i d, collection !! i = Some d →
           (fingerprint_sha256 d ≠ fp → updated !! i = Some d)
           ∧ (fingerprint_sha256 d = fp →
              ∃ d', updated !! i = Some d'
                ∧ fingerprint_sha256 d' = fp
                ∧ source_id d' !! source = Some id
                ∧ ct_log_type d' = ct_log_type cert
                ∧ zones d' = cert_zones
                ∧ marinus_updated d' = now
                ∧ source ∈ sources d'
                ∧ (∀ earlier, earlier ∈ sources d → earlier ∈ sources d')
                ∧ (∀ other, other ≠ source →
                     source_id d' !! other = source_id d !! other)
                ∧ isExpired d' = isExpired d
                ∧ not_after d' = not_after d)).
Proof.
  intros Hid fp. unfold insert_certificate. fold fp. split.
  - intros Hnone. rewrite Hnone. simpl. split; [done|].
    rewrite find_count_app, Hnone. unfold find_count, by_fingerprint. simpl.
    unfold fp. by rewrite String.eqb_refl.
  - intros Hsome.
    destruct (Nat.eqb_spec (find_count (by_fingerprint fp) collection) 0) as [|_]; [done|].
    rewrite Hid. eexists. split; [reflexivity|].
    split; [unfold update_many; apply length_map|].
    split; [by apply find_count_update_many|].
    intros i d Hd. rewrite lookup_update_many, Hd. simpl. unfold by_fingerprint.
    split.
    + intros Hne. by rewrite (proj2 (String.eqb_neq _ _) Hne).
    + intros Heq. rewrite (proj2 (String.eqb_eq _ _) Heq).
      eexists. split; [reflexivity|]. simpl.
      split; [done|]. split; [apply lookup_insert_eq|].
      do 3 (split; [done|]).
      split; [apply elem_of_addToSet; by right|].
      split; [intros earlier He; apply elem_of_addToSet; by left|].
      split; [|done]. intros other Hother. by apply lookup_insert_ne.
Qed.

(** ** Cursor resolution *)

Lemma head_insert_desc (x : Z) (l : list Z) :
  head (insert_desc x l)
  = Some (match head l with Some y => Z.max x y | None => x end).
Proof.
  destruct l as [|y l]; simpl; [done|].
  destruct (Z.ltb_spec y x); simpl; f_equal; lia.
Qed.

Lemma head_sort_desc (l : list Z) :
  l ≠ [] → ∃ m, head (sort_desc l) = Some m ∧ m ∈ l ∧ ∀ x, x ∈ l → x ≤ m.
Proof.
  induction l as [|x l IH]; [done|]. intros _.
  unfold sort_desc. simpl. fold (sort_desc l). rewrite head_insert_desc.
  destruct l as [|y l].
  - simpl. exists x. split; [done|]. split; [apply list_elem_of_here|].
    intros z Hz. apply list_elem_of_singleton in Hz. lia.
  - destruct IH as (m & -> & Hm & Hmax); [done|].
    exists (Z.max x m). split; [done|]. split.
    + destruct (Z.max_spec x m) as [[_ ->]|[_ ->]];
        [by apply list_elem_of_further|apply list_elem_of_here].
    + intros z Hz. apply elem_of_cons in Hz as [->|Hz]; [lia|].
      specialize (Hmax z Hz). lia.
Qed.

Lemma head_take_1 {A} (l : list A) : head (take 1 l) = head l.
Proof. by destruct l. Qed.

Lemma fetch_starting_index_max (collection : list certificate) (source : string) :
  let ids := omap (λ d, source_id d !! source) collection in
  (ids = [] → fetch_starting_index collection source = Some 0)
  ∧ (ids ≠ [] →
     ∃ m, fetch_starting_index collection source = Some m
          ∧ m ∈ ids ∧ ∀ x, x ∈ ids → x ≤ m).
Proof.
  intros ids. unfold fetch_starting_index. fold ids. split.
  - by intros ->.
  - intros Hne. destruct ids as [|x ids'] eqn:E; [done|].
    change (length (x :: ids') =? 0)%nat with false. cbv iota.
    rewrite head_take_1. by apply head_sort_desc.
Qed.

(** C4, as amended: the starting index of a run is the explicit override
    whenever [--starting_index] differs from -1, the value that stands
    for an override not supplied (a negative override other than -1 is
    used as it is); with -1 it is the largest [{source}_id] among the
    stored records that have one (12 for the stored ids 5, 12 and 9), and
    0 when no stored record has one. *)
Theorem C4_cursor_resolution (args : arguments) (collection : list certificate)
    (source : string) :
  let ids := omap (λ d, source_id d !! source) collection in
  (starting_index args ≠ -1 →
     main_starting_index args collection source = Some (starting_index args))
  ∧ (starting_index args = -1 → ids ≠ [] →
     ∃ m, main_starting_index args collection source = Some m
          ∧ m ∈ ids ∧ ∀ x, x ∈ ids → x ≤ m)
  ∧ (starting_index args = -1 → ids = [] →
     main_starting_index args collection source = Some 0)
  ∧ main_starting_index (example_args (-1)) example_collection "aviator" = Some 12.
Proof.
  intros ids. unfold main_starting_index.
  destruct (fetch_starting_index_max collection source) as [Hnil Hmax].
  split; [|split; [|split]].
  - intros Hne. by destruct (Z.eqb_spec (starting_index args) (-1)).
  - intros -> Hids. simpl. by apply Hmax.
  - intros -> Hids. simpl. by apply Hnil.
  - by vm_compute.
Qed.

(** ** The program monad *)

Section Stable.
Context (R : state → state → Prop) `{!PreOrder R}.

Lemma stable_ret {A} (a : A) : stable R (mret a).
Proof. intros s o s' [= <- <-]. reflexivity. Qed.

Lemma stable_lift {A} (r : result A) : stable R (lift r).
Proof. intros s o s' H. unfold lift in H. destruct r; injection H as <- <-; reflexivity. Qed.

Lemma stable_exit {A} (code : Z) : stable R (@exit A code).
Proof. intros s o s' [= <- <-]. reflexivity. Qed.

Lemma stable_out_of_fuel {A} : stable R (@out_of_fuel A).
Proof. intros s o s' [= <- <-]. reflexivity. Qed.

Lemma stable_bind {A B} (m : prog A) (f : A → prog B) :
  stable R m → (∀ a, stable R (f a)) → stable R (m ≫= f).
Proof.
  intros Hm Hf s o s' H. unfold mbind, prog_bind in H.
  destruct (m s) as [[a|e|c|] s1] eqn:E; specialize (Hm _ _ _ E).
  - transitivity s1; [done|]. by apply (Hf a s1 o s').
  - by injection H as <- <-.
  - by injection H as <- <-.
  - by injection H as <- <-.
Qed.
End Stable.

Lemma returns_ret {A} (a : A) (P : A → Prop) : P a → returns (mret a) P.
Proof. intros HP s. by exists a, s. Qed.

Lemma returns_lift {A} (a : A) (P : A → Prop) : P a → returns (lift (Ok a)) P.
Proof. intros HP s. by exists a, s. Qed.

Lemma returns_bind {A B} (m : prog A) (f : A → prog B) (P : A → Prop) (Q : B → Prop) :
  returns m P → (∀ a, P a → returns (f a) Q) → returns (m ≫= f) Q.
Proof.
  intros Hm Hf s. destruct (Hm s) as (a & s1 & E & Ha).
  destruct (Hf a Ha s1) as (b & s2 & E2 & Hb).
  exists b, s2. unfold mbind, prog_bind. by rewrite E.
Qed.

Lemma returns_emit (ev : event) : returns (emit ev) (λ _, True).
Proof. intros s. by eexists _, _. Qed.

Lemma returns_get_collection : returns get_collection (λ _, True).
Proof. intros s. by eexists _, _. Qed.

Lemma returns_put_collection (c : list certificate) :
  returns (put_collection c) (λ _, True).
Proof. intros s. by eexists _, _. Qed.

Lemma returns_read_clock (w : world) : returns (read_clock w) (λ _, True).
Proof. intros s. by eexists _, _. Qed.


#[local] Instance sends_nothing_preorder : PreOrder sends_nothing.
Proof.
  split.
  - by intros s.
  - intros s1 s2 s3 [H1 H2] [H3 H4]. split; congruence.
Qed.

Lemma requested_app (t1 t2 : list event) :
  requested (t1 ++ t2) = requested t1 ++ requested t2.
Proof. unfold requested. apply omap_app. Qed.

Lemma sends_nothing_emit (ev : event) :
  (∀ url, ev ≠ Get url) → stable sends_nothing (emit ev).
Proof.
  intros Hev s o s' [= <- <-]. split; simpl; [done|].
  rewrite requested_app. destruct ev; simpl; try apply app_nil_r.
  by destruct (Hev url).
Qed.

Lemma sends_nothing_get_collection : stable sends_nothing get_collection.
Proof. intros s o s' [= <- <-]. reflexivity. Qed.

Lemma sends_nothing_put_collection (c : list certificate) :
  stable sends_nothing (put_collection c).
Proof. by intros s o s' [= <- <-]. Qed.

Lemma sends_nothing_read_clock (w : world) : stable sends_nothing (read_clock w).
Proof. by intros s o s' [= <- <-]. Qed.

(** ** One entry of a batch *)

Lemma insert_certificate_Ok (now : Z) (cert : certificate) (source : string)
    (collection : list certificate) (cert_zones : list string) (id : Z) :
  source_id cert !! source = Some id →
  ∃ updated, insert_certificate now cert source collection cert_zones = Ok updated.
Proof.
  intros Hid. unfold insert_certificate. rewrite Hid.
  destruct (_ =? _)%nat; eauto.
Qed.

Lemma expired_kept_refl (c : list certificate) : expired_kept c c.
Proof. intros i d Hd He. eauto. Qed.

Lemma expired_kept_trans (c1 c2 c3 : list certificate) :
  expired_kept c1 c2 → expired_kept c2 c3 → expired_kept c1 c3.
Proof.
  intros H12 H23 i d Hd He.
  destruct (H12 i d Hd He) as (d2 & Hd2 & He2). eauto.
Qed.

#[local] Instance keeps_expired_preorder : PreOrder keeps_expired.
Proof.
  split.
  - intros s. apply expired_kept_refl.
  - intros s1 s2 s3. apply expired_kept_trans.
Qed.

Lemma expired_kept_update_many (query : certificate → bool)
    (update : certificate → certificate) (c : list certificate) :
  (∀ d, isExpired d = true → isExpired (update d) = true) →
  expired_kept c (update_many query update c).
Proof.
  intros Hup i d Hd He. rewrite lookup_update_many, Hd. simpl.
  eexists. split; [reflexivity|]. destruct (query d); auto.
Qed.

Lemma expired_kept_insert_certificate (now : Z) (cert : certificate) (source : string)
    (collection updated : list certificate) (cert_zones : list string) :
  insert_certificate now cert source collection cert_zones = Ok updated →
  expired_kept collection updated.
Proof.
  unfold insert_certificate. destruct (_ =? _)%nat.
  - intros [= <-] i d Hd He. exists d. split; [|done].
    by apply lookup_app_l_Some.
  - destruct (source_id cert !! source); [|done].
    intros [= <-]. by apply expired_kept_update_many.
Qed.

Lemma expired_kept_main_sweep (utcnow : Z) (c : list certificate) :
  expired_kept c (main_sweep utcnow c).
Proof. by apply expired_kept_update_many. Qed.

(** The call of [insert_certificate] on the store of the run: the result
    is the one of the function at the time the clock shows, and the clock
    is read only when the fingerprint is already stored. *)
Lemma insert_certificate_call_run (w : world) (cert : certificate) (source : string)
    (cert_zones : list string) (s : state) :
  insert_certificate_call w cert source cert_zones s =
  match insert_certificate (datetime_now w (clock_reads s)) cert source
          (ct_collection s) cert_zones with
  | Ok updated =>
      (Returns (),
       {| ct_collection := updated;
          trace := trace s;
          requests_sent := requests_sent s;
          clock_reads :=
            if (find_count (by_fingerprint (fingerprint_sha256 cert))
                  (ct_collection s) =? 0)%nat
            then clock_reads s else S (clock_reads s) |})
  | Raise x => (Raises x, s)
  end.
Proof.
  unfold insert_certificate_call, insert_certificate, mbind, prog_bind,
    get_collection, put_collection, read_clock, lift.
  simpl. destruct (_ =? _)%nat; [done|].
  by destruct (source_id cert !! source).
Qed.

Lemma returns_insert_certificate_call (w : world) (cert : certificate)
    (source : string) (cert_zones : list string) (id : Z) :
  source_id cert !! source = Some id →
  returns (insert_certificate_call w cert source cert_zones) (λ _, True).
Proof.
  intros Hid s. rewrite insert_certificate_call_run.
  edestruct insert_certificate_Ok as [updated ->]; [exact Hid|].
  by eexists _, _.
Qed.

Lemma sends_nothing_insert_certificate_call (w : world) (cert : certificate)
    (source : string) (cert_zones : list string) :
  stable sends_nothing (insert_certificate_call w cert source cert_zones).
Proof.
  intros s o s' Hrun. rewrite insert_certificate_call_run in Hrun.
  by destruct (insert_certificate _ _ _ _ _); injection Hrun as <- <-.
Qed.

Lemma keeps_expired_insert_certificate_call (w : world) (cert : certificate)
    (source : string) (cert_zones : list string) :
  stable keeps_expired (insert_certificate_call w cert source cert_zones).
Proof.
  intros s o s' Hrun. rewrite insert_certificate_call_run in Hrun.
  destruct (insert_certificate _ _ _ _ _) as [updated|x] eqn:E;
    injection Hrun as <- <-.
  - by apply expired_kept_insert_certificate in E.
  - apply expired_kept_refl.
Qed.

Section EntryProperties.
Context `{!Externals} (w : world).
Context (args : arguments) (source save_location download_method save_type_ : string).

Lemma main_for_body_raises (e : entry) (i : Z) (x : exn) (s : state) :
  main_select_der (include_precerts args) e = Raise x →
  main_for_body w args source save_location download_method save_type_ e i s
  = (Raises x, s).
Proof. intros Hsel. unfold main_for_body. by rewrite Hsel. Qed.

Lemma main_for_body_returns (e : entry) (i : Z) :
  is_Ok (main_select_der (include_precerts args) e) →
  returns (main_for_body w args source save_location download_method save_type_ e i)
    (λ j, j = i + 1).
Proof.
  intros Hok. unfold main_for_body.
  destruct (main_select_der _ e) as [selected|]; [|done].
  eapply returns_bind; [by apply (returns_lift selected (eq selected))|].
  intros ? <-. destruct selected as [[der_cert cert_type]|]; [|by apply returns_ret].
  destruct (parse_data der_cert source) as [cert|]; [|by apply returns_ret].
  eapply returns_bind with (P := λ _, True); [|intros; by apply returns_ret].
  destruct (_ || _); [|by apply returns_ret].
  eapply returns_bind;
    [eapply returns_insert_certificate_call; simpl; apply lookup_insert_eq|].
  intros _ _.
  destruct (String.eqb _ _); [apply returns_emit|by apply returns_ret].
Qed.

Lemma main_for_body_sends_nothing (e : entry) (i : Z) :
  stable sends_nothing
    (main_for_body w args source save_location download_method save_type_ e i).
Proof.
  unfold main_for_body.
  apply stable_bind; [apply _|apply stable_lift, _|]. intros selected.
  destruct selected as [[der_cert cert_type]|]; [|apply stable_ret, _].
  destruct (parse_data der_cert source) as [cert|]; [|apply stable_ret, _].
  apply stable_bind; [apply _| |intros; apply stable_ret, _].
  destruct (_ || _); [|apply stable_ret, _].
  apply stable_bind; [apply _|apply sends_nothing_insert_certificate_call|].
  intros _.
  destruct (String.eqb _ _); [by apply sends_nothing_emit|apply stable_ret, _].
Qed.

Lemma main_for_body_keeps_expired (e : entry) (i : Z) :
  stable keeps_expired
    (main_for_body w args source save_location download_method save_type_ e i).
Proof.
  unfold main_for_body.
  apply stable_bind; [apply _|apply stable_lift, _|]. intros selected.
  destruct selected as [[der_cert cert_type]|]; [|apply stable_ret, _].
  destruct (parse_data der_cert source) as [cert|]; [|apply stable_ret, _].
  apply stable_bind; [apply _| |intros; apply stable_ret, _].
  destruct (_ || _); [|apply stable_ret, _].
  apply stable_bind; [apply _|apply keeps_expired_insert_certificate_call|].
  intros _.
  destruct (String.eqb _ _); [|apply stable_ret, _].
  intros s o s' [= <- <-]. apply expired_kept_refl.
Qed.


Lemma main_for_sends_nothing (entries : list entry) (i : Z) :
  stable sends_nothing
    (main_for w args source save_location download_method save_type_ entries i).
Proof.
  revert i. induction entries as [|e entries IH]; intros i; simpl.
  - apply stable_ret, _.
  - apply stable_bind; [apply _|apply main_for_body_sends_nothing|done].
Qed.

Lemma main_for_keeps_expired (entries : list entry) (i : Z) :
  stable keeps_expired
    (main_for w args source save_location download_method save_type_ entries i).
Proof.
  revert i. induction entries as [|e entries IH]; intros i; simpl.
  - apply stable_ret, _.
  - apply stable_bind; [apply _|apply main_for_body_keeps_expired|done].
Qed.
End EntryProperties.

(** ** Requests and their failure policy *)

Section RequestProperties.
Context (w : world).

(** A 200 answer is returned as it is, after a single GET. *)
Lemma make_https_request_200 (url : string) (body : text) (s : state) :
  session_get w (requests_sent s) url = Responds 200 body →
  make_https_request w url s = (Returns (Some body), after_get url s).
Proof.
  intros Hget. unfold make_https_request, make_https_request_rec, try_get.
  unfold mbind, prog_bind, session_get_call. by rewrite Hget.
Qed.

(** An error status, 4xx or 5xx, of a response that the session hands
    over makes [raise_for_status] raise [HTTPError]; the request returns
    [None] and records no job error.  The statuses of
    [status_forcelist] do not come this way: they end as a
    [RetryError], which is fatal. *)
Lemma make_https_request_error_status (url : string) (status_code : Z) (body : text)
    (s : state) :
  session_get w (requests_sent s) url = Responds status_code body →
  400 ≤ status_code < 600 →
  make_https_request w url s = (Returns None, after_get url s).
Proof.
  intros Hget Hstatus. unfold make_https_request, make_https_request_rec, try_get.
  unfold mbind, prog_bind, session_get_call. rewrite Hget.
  destruct (Z.leb_spec 400 status_code); [|lia].
  destruct (Z.ltb_spec status_code 600); [|lia]. reflexivity.
Qed.

(** Every exception that is a [Timeout] is caught by an earlier clause:
    the [except Timeout] clause is never reached. *)
Lemma timeout_clause_unreachable (e : raised) :
  isinstance e ClsTimeout = true →
  isinstance e ClsConnectionError = true
  ∨ (isinstance e ClsHTTPError = false ∧ isinstance e ClsRequestException = true).
Proof. destruct e; simpl; intros; try discriminate; auto. Qed.

(** Whatever [requests] raises, other than [HTTPError], is fatal at
    once: one GET, the job error recorded, exit status 1.  This
    includes every timeout, at the first attempt. *)
Lemma make_https_request_raised_fatal (url : string) (e : raised) (s : state) :
  session_get w (requests_sent s) url = Fails e →
  e ≠ HTTPError →
  make_https_request w url s = (Exits 1, after_job_error (after_get url s)).
Proof.
  intros Hget He. unfold make_https_request, make_https_request_rec, try_get.
  unfold mbind, prog_bind, session_get_call. rewrite Hget.
  destruct e; try done.
Qed.

(** The batch fetch on an absent first result: one sleep of 600
    seconds, one more request, and a fatal end when that request gives
    no result either. *)
Lemma fetch_certificate_batch_two_failures (url : string) (a b : Z)
    (c1 c2 : Z) (b1 b2 : text) (s : state) :
  let target := url +:+ "/ct/v1/get-entries?start=" +:+ str a +:+ "&end=" +:+ str b in
  session_get w (requests_sent s) target = Responds c1 b1 →
  session_get w (S (requests_sent s)) target = Responds c2 b2 →
  400 ≤ c1 < 600 → 400 ≤ c2 < 600 →
  ∃ s', fetch_certificate_batch w url a b s = (Exits 1, s')
        ∧ trace s' = trace s ++ [Get target; Sleep 600; Get target; RecordJobError].
Proof.
  intros target H1 H2 Hc1 Hc2. unfold fetch_certificate_batch. fold target.
  unfold mbind at 1, prog_bind at 1.
  rewrite (make_https_request_error_status target c1 b1 s H1 Hc1).
  unfold mbind at 1, prog_bind at 1. unfold mbind at 1, prog_bind at 1.
  unfold emit at 1.
  match goal with
  | |- context [make_https_request w target ?s1] =>
      rewrite (make_https_request_error_status target c2 b2 s1 H2 Hc2)
  end.
  eexists. split; [reflexivity|]. simpl. by rewrite <- !app_assoc.
Qed.

Lemma fetch_certificate_batch_retry_succeeds (url : string) (a b : Z)
    (c1 : Z) (b1 : text) (j : json) (s : state) :
  let target := url +:+ "/ct/v1/get-entries?start=" +:+ str a +:+ "&end=" +:+ str b in
  session_get w (requests_sent s) target = Responds c1 b1 →
  session_get w (S (requests_sent s)) target = Responds 200 (Document j) →
  400 ≤ c1 < 600 →
  ∃ s', fetch_certificate_batch w url a b s = (Returns j, s')
        ∧ trace s' = trace s ++ [Get target; Sleep 600; Get target].
Proof.
  intros target H1 H2 Hc1. unfold fetch_certificate_batch. fold target.
  unfold mbind at 1, prog_bind at 1.
  rewrite (make_https_request_error_status target c1 b1 s H1 Hc1).
  unfold mbind at 1, prog_bind at 1. unfold mbind at 1, prog_bind at 1.
  unfold emit at 1.
  match goal with
  | |- context [make_https_request w target ?s1] =>
      rewrite (make_https_request_200 target (Document j) s1 H2)
  end.
  eexists. split; [reflexivity|]. simpl. by rewrite <- !app_assoc.
Qed.

Lemma fetch_certificate_batch_200 (url : string) (a b : Z) (j : json) (s : state) :
  let target := url +:+ "/ct/v1/get-entries?start=" +:+ str a +:+ "&end=" +:+ str b in
  session_get w (requests_sent s) target = Responds 200 (Document j) →
  fetch_certificate_batch w url a b s = (Returns j, after_get target s).
Proof.
  intros target Hget. unfold fetch_certificate_batch. fold target.
  unfold mbind at 1, prog_bind at 1.
  by rewrite (make_https_request_200 target (Document j) s Hget).
Qed.
End RequestProperties.

(** ** The crawl loop *)

Lemma keeps_expired_same (s s' : state) :
  ct_collection s' = ct_collection s → keeps_expired s s'.
Proof. unfold keeps_expired. intros ->. apply expired_kept_refl. Qed.

Lemma keeps_expired_emit (ev : event) : stable keeps_expired (emit ev).
Proof. intros s o s' [= <- <-]. by apply keeps_expired_same. Qed.

Lemma keeps_expired_get_collection : stable keeps_expired get_collection.
Proof. intros s o s' [= <- <-]. by apply keeps_expired_same. Qed.

Lemma keeps_expired_session_get_call (w : world) (url : string) :
  stable keeps_expired (session_get_call w url).
Proof. intros s o s' [= <- <-]. by apply keeps_expired_same. Qed.

Ltac stable_keeps :=
  repeat first
    [ apply stable_ret; apply _
    | apply stable_lift; apply _
    | apply stable_exit; apply _
    | apply stable_out_of_fuel; apply _
    | apply keeps_expired_emit
    | apply keeps_expired_get_collection
    | apply keeps_expired_session_get_call
    | apply stable_bind; [apply _ | | intros ?]
    | match goal with
      | |- stable _ (match ?x with _ => _ end) => destruct x
      end ].

Lemma make_https_request_rec_keeps_expired (w : world) (depth : nat) (url : string)
    (timeout_attempt : Z) :
  stable keeps_expired (make_https_request_rec w depth url timeout_attempt).
Proof.
  revert timeout_attempt. induction depth as [|depth IH]; intros timeout_attempt; simpl.
  - stable_keeps.
  - unfold try_get. stable_keeps. apply IH.
Qed.

Lemma fetch_certificate_batch_keeps_expired (w : world) (url : string) (a b : Z) :
  stable keeps_expired (fetch_certificate_batch w url a b).
Proof.
  unfold fetch_certificate_batch, make_https_request.
  stable_keeps; apply make_https_request_rec_keeps_expired.
Qed.

Section CrawlProperties.
Context `{!Externals} (w : world).
Context (args : arguments) (source url save_location download_method save_type_ : string).

Lemma main_while_keeps_expired (fuel : nat) (tree_size current_index : Z) :
  stable keeps_expired
    (main_while w fuel args source url save_location download_method save_type_
       tree_size current_index).
Proof.
  revert current_index. induction fuel as [|fuel IH]; intros current_index; simpl.
  - stable_keeps.
  - destruct (current_index <? tree_size); [|stable_keeps].
    apply stable_bind; [apply _|apply fetch_certificate_batch_keeps_expired|].
    intros certs. apply stable_bind; [apply _|stable_keeps|]. intros entries.
    apply stable_bind; [apply _|apply main_for_keeps_expired|]. intros i. apply IH.
Qed.



End CrawlProperties.

(** ** The expiration sweep and the whole run *)

Lemma main_sweep_lookup (utcnow : Z) (collection : list certificate) (i : nat)
    (d : certificate) :
  collection !! i = Some d →
  main_sweep utcnow collection !! i
  = Some (if expiration_query utcnow d then with_isExpired d true else d).
Proof. intros Hd. unfold main_sweep. by rewrite lookup_update_many, Hd. Qed.

Lemma expiration_query_expired (utcnow : Z) (d : certificate) :
  isExpired d = true → expiration_query utcnow d = false.
Proof.
  intros He. unfold expiration_query. rewrite He.
  rewrite bool_decide_eq_false_2 by done. apply andb_false_r.
Qed.

(** What the sweep makes of one record *)
Lemma main_sweep_record (utcnow : Z) (d : certificate) :
  let d' := if expiration_query utcnow d then with_isExpired d true else d in
  isExpired d' = isExpired d || (not_after d <? utcnow)
  ∧ (not_after d < utcnow → isExpired d = false → isExpired d' = true)
  ∧ (d' ≠ d ↔ not_after d < utcnow ∧ isExpired d = false)
  ∧ fingerprint_sha256 d' = fingerprint_sha256 d
  ∧ subject_organization_name d' = subject_organization_name d
  ∧ subject_common_names d' = subject_common_names d
  ∧ subject_dns_names d' = subject_dns_names d
  ∧ not_after d' = not_after d
  ∧ raw d' = raw d
  ∧ ct_log_type d' = ct_log_type d
  ∧ zones d' = zones d
  ∧ sources d' = sources d
  ∧ source_id d' = source_id d
  ∧ marinus_updated d' = marinus_updated d.
Proof.
  unfold expiration_query. cbv zeta.
  destruct (Z.ltb_spec (not_after d) utcnow) as [Hlt|Hge];
    destruct (isExpired d) eqn:He; simpl;
    (split; [done|]); (split; [first [done | intros; lia]|]); (split; [|done]).
  - split; [done|by intros [_ ?]].
  - split; [done|]. intros _ Heq.
    apply (f_equal isExpired) in Heq. simpl in Heq. congruence.
  - split; [done|by intros [_ ?]].
  - split; [done|]. intros [? _]. lia.
Qed.

Lemma main_sweep_later (utcnow later : Z) (collection : list certificate) :
  utcnow ≤ later →
  main_sweep later (main_sweep utcnow collection) = main_sweep later collection.
Proof.
  intros Hle. unfold main_sweep, update_many. rewrite map_map.
  apply map_ext. intros d.
  destruct (expiration_query utcnow d) eqn:E; [|done].
  rewrite expiration_query_expired by done.
  unfold expiration_query in *. apply andb_true_iff in E as [Hlt He]. rewrite He.
  apply Z.ltb_lt in Hlt. destruct (Z.ltb_spec (not_after d) later); [done|lia].
Qed.

Section RunProperties.
Context `{!Externals} (w : world).

Lemma main_keeps_expired (fuel : nat) (args : arguments) :
  stable keeps_expired (main w fuel args).
Proof.
  unfold main. cbv zeta.
  apply stable_bind; [apply _|stable_keeps|]. intros ct_log_map.
  apply stable_bind; [apply _|stable_keeps|]. intros method.
  apply stable_bind; [apply _|stable_keeps|]. intros _.
  apply stable_bind; [apply _|stable_keeps|]. intros collection.
  apply stable_bind; [apply _| |].
  { unfold fetch_sth, make_https_request.
    apply stable_bind; [apply _| |intros; stable_keeps].
    apply make_https_request_rec_keeps_expired. }
  intros sth_data.
  apply stable_bind; [apply _|stable_keeps|]. intros tree_size.
  apply stable_bind; [apply _|stable_keeps|]. intros i.
  apply stable_bind; [apply _|apply main_while_keeps_expired|]. intros _.
  intros s o s' [= <- <-]. apply expired_kept_main_sweep.
Qed.

(** C8: the sweep keeps the store's length and changes exactly the
    records with [not_after] before now and [isExpired] false, in which
    it sets [isExpired] to true; every other record, any record already
    expired included, is left as it is.  Field by field: the record at
    each position has [isExpired] true after the sweep exactly when it
    was expired before or its [not_after] is before now, it differs
    from the record before the sweep exactly when that one was due and
    unexpired, and all its other fields are those of the record before.
    Sweeping twice gives the same store as sweeping once, at the same
    time or at a later one.  No operation of the pipeline unsets
    [isExpired]: a record expired before an upsert, a sweep or a whole
    run of [main] is still expired after it, however the run ends. *)
Theorem C8_expiration_sweep (utcnow : Z) (collection : list certificate) :
  length (main_sweep utcnow collection) = length collection
  ∧ (∀ i d, collection !! i = Some d →
       main_sweep utcnow collection !! i
       = Some (if (not_after d <? utcnow) && bool_decide (isExpired d = false)
               then with_isExpired d true else d))
  ∧ (∀ i d, collection !! i = Some d →
       ∃ d', main_sweep utcnow collection !! i = Some d'
         ∧ isExpired d' = isExpired d || (not_after d <? utcnow)
         ∧ (not_after d < utcnow → isExpired d = false → isExpired d' = true)
         ∧ (d' ≠ d ↔ not_after d < utcnow ∧ isExpired d = false)
         ∧ fingerprint_sha256 d' = fingerprint_sha256 d
         ∧ subject_organization_name d' = subject_organization_name d
         ∧ subject_common_names d' = subject_common_names d
         ∧ subject_dns_names d' = subject_dns_names d
         ∧ not_after d' = not_after d
         ∧ raw d' = raw d
         ∧ ct_log_type d' = ct_log_type d
         ∧ zones d' = zones d
         ∧ sources d' = sources d
         ∧ source_id d' = source_id d
         ∧ marinus_updated d' = marinus_updated d)
  ∧ (∀ i d, collection !! i = Some d → isExpired d = true →
       main_sweep utcnow collection !! i = Some d)
  ∧ main_sweep utcnow (main_sweep utcnow collection) = main_sweep utcnow collection
  ∧ (∀ later, utcnow ≤ later →
       main_sweep later (main_sweep utcnow collection) = main_sweep later collection)
  ∧ expired_kept collection (main_sweep utcnow collection)
  ∧ (∀ now cert source cert_zones updated,
       insert_certificate now cert source collection cert_zones = Ok updated →
       expired_kept collection updated)
  ∧ (∀ fuel args s o s',
       main w fuel args s = (o, s') →
       expired_kept (ct_collection s) (ct_collection s')).
Proof.
  split; [unfold main_sweep, update_many; apply length_map|].
  split; [intros i d Hd; by apply main_sweep_lookup|].
  split.
  { intros i d Hd. rewrite (main_sweep_lookup utcnow collection i d Hd).
    eexists. split; [reflexivity|]. by apply main_sweep_record. }
  split.
  { intros i d Hd He. rewrite (main_sweep_lookup utcnow collection i d Hd).
    by rewrite expiration_query_expired. }
  split; [by apply main_sweep_later|].
  split; [intros later; apply main_sweep_later|].
  split; [apply expired_kept_main_sweep|].
  split; [intros now cert source cert_zones updated; apply expired_kept_insert_certificate|].
  intros fuel args s o s' Hrun. by apply (main_keeps_expired fuel args s o s').
Qed.
End RunProperties.

(** C7, at the failing input: a read timeout is an instance of both
    [Timeout] and [RequestException], and the clause for
    [RequestException] comes first.  The first timeout of a batch
    request therefore ends the run: one GET, the job error recorded,
    exit status 1, and no second attempt, although the log would have
    answered it.  The same holds of a connect timeout, an instance of
    [Timeout] that the still earlier clause for [ConnectionError]
    catches. *)
Theorem C7_first_timeout_is_fatal :
  isinstance ReadTimeout ClsTimeout = true
  ∧ isinstance ReadTimeout ClsRequestException = true
  ∧ session_get world_one_timeout 1
      "https://ct.googleapis.com/aviator/ct/v1/get-entries?start=0&end=256"
    = Responds 200 (Document (JsonEntries [entry_x509]))
  ∧ fetch_certificate_batch world_one_timeout "https://ct.googleapis.com/aviator" 0 256
      (initial_state [])
    = (Exits 1,
       {| ct_collection := [];
          trace := [Get "https://ct.googleapis.com/aviator/ct/v1/get-entries?start=0&end=256";
                    RecordJobError];
          requests_sent := 1;
          clock_reads := 0 |})
  ∧ isinstance ConnectTimeout ClsTimeout = true
  ∧ isinstance ConnectTimeout ClsConnectionError = true
  ∧ session_get world_connect_timeout 1
      "https://ct.googleapis.com/aviator/ct/v1/get-entries?start=0&end=256"
    = Responds 200 (Document (JsonEntries [entry_x509]))
  ∧ fetch_certificate_batch world_connect_timeout "https://ct.googleapis.com/aviator"
      0 256 (initial_state [])
    = (Exits 1,
       {| ct_collection := [];
          trace := [Get "https://ct.googleapis.com/aviator/ct/v1/get-entries?start=0&end=256";
                    RecordJobError];
          requests_sent := 1;
          clock_reads := 0 |}).
Proof. by vm_compute. Qed.

(** ** The properties at concrete inputs *)



(** Counterexample to C2 as the specification words it: the leaf
    [leaf_x509] has entry type 0 and the consistent declared length 1,
    and the decoder returns 3 bytes. *)
Lemma C2_declared_length_counterexample :
  b64decode_rfc4648 leaf_x509 = Ok leaf_x509_bytes
  ∧ int_from_bytes_big (slice 10 12 leaf_x509_bytes) = 0
  ∧ int_from_bytes_big (slice 0 3 (drop 12 leaf_x509_bytes)) = 1
  ∧ 1 = Z.of_nat (length (drop 15 leaf_x509_bytes)) - 2
  ∧ @get_cert_from_leaf example_externals leaf_x509 = Ok (Some [x30; x00; x00], 0)
  ∧ Z.of_nat (length [x30; x00; x00]) ≠ 1.
Proof. by vm_compute. Qed.

Lemma C2_x509_leaf_keeps_trailing_bytes_witness :
  @get_cert_from_leaf example_externals leaf_x509 = Ok (Some (drop 15 leaf_x509_bytes), 0)
  ∧ Z.of_nat (length (drop 15 leaf_x509_bytes)) = 1 + 2
  ∧ Z.of_nat (length (take (Z.to_nat 1) (drop 15 leaf_x509_bytes))) = 1
  ∧ length (drop (Z.to_nat 1) (drop 15 leaf_x509_bytes)) = 2%nat.
Proof.
  apply (@C2_x509_leaf_keeps_trailing_bytes example_externals leaf_x509 leaf_x509_bytes 1);
    by vm_compute.
Defined.

Lemma C3_upsert_by_fingerprint_witness :
  source_id (sighting "pilot" 40) !! "pilot" = Some 40
  ∧ find_count (by_fingerprint (fingerprint_sha256 (sighting "pilot" 40))) example_store
    ≠ 0%nat
  ∧ ∃ updated,
      insert_certificate 5000 (sighting "pilot" 40) "pilot" example_store ["example.com"]
      = Ok updated
      ∧ length updated = 3%nat
      ∧ find_count (by_fingerprint (fingerprint_sha256 (sighting "pilot" 40))) updated
        = 1%nat
      ∧ sources <$> updated !! 0%nat = Some ["aviator"; "pilot"].
Proof.
  assert (source_id (sighting "pilot" 40) !! "pilot" = Some 40) as Hid by by vm_compute.
  assert (find_count (by_fingerprint (fingerprint_sha256 (sighting "pilot" 40)))
            example_store ≠ 0%nat) as Hfound by by vm_compute.
  split; [exact Hid|]. split; [exact Hfound|].
  destruct (C3_upsert_by_fingerprint 5000 (sighting "pilot" 40) "pilot" example_store
              ["example.com"] 40 Hid) as [_ Hpresent].
  destruct (Hpresent Hfound) as (updated & Eup & Hlen & Hcount & _).
  exists updated. split; [exact Eup|]. split; [exact Hlen|]. split; [exact Hcount|].
  vm_compute in Eup. injection Eup as <-. reflexivity.
Defined.

(** Counterexample to C4 as the specification words it: the override -5
    is supplied and is not ≥ 0, the store holds the ids 5, 12 and 9, and
    the run starts at -5, not at 12. *)
Lemma C4_negative_override_counterexample :
  starting_index (example_args (-5)) = -5
  ∧ ¬ 0 ≤ starting_index (example_args (-5))
  ∧ fetch_starting_index example_collection "aviator" = Some 12
  ∧ main_starting_index (example_args (-5)) example_collection "aviator" = Some (-5)
  ∧ main_starting_index (example_args (-5)) example_collection "aviator" ≠ Some 12.
Proof. vm_compute. repeat split; congruence. Qed.

Lemma C4_cursor_resolution_witness :
  starting_index (example_args (-1)) = -1
  ∧ omap (λ d, source_id d !! "aviator") example_collection ≠ []
  ∧ ∃ m, main_starting_index (example_args (-1)) example_collection "aviator" = Some m
         ∧ m ∈ omap (λ d, source_id d !! "aviator") example_collection
         ∧ ∀ x, x ∈ omap (λ d, source_id d !! "aviator") example_collection → x ≤ m.
Proof.
  assert (omap (λ d, source_id d !! "aviator") example_collection ≠ []) as Hids
    by by vm_compute.
  split; [reflexivity|]. split; [exact Hids|].
  destruct (C4_cursor_resolution (example_args (-1)) example_collection "aviator")
    as (_ & Hmax & _).
  exact (Hmax eq_refl Hids).
Defined.

Lemma C6_precert_slice_convention_witness :
  @main_select_der example_externals true entry_precert
  = Ok (Some (Some (slice 3 (Z.to_nat (2 + 4)) [x00; x00; x02; x30; x31; x32; x33]), 1))
  ∧ ((Z.to_nat (2 + 4) ≤ length [x00; x00; x02; x30; x31; x32; x33])%nat →
     Z.of_nat (length (slice 3 (Z.to_nat (2 + 4)) [x00; x00; x02; x30; x31; x32; x33]))
     = 2 + 1
     ∧ slice 3 (Z.to_nat (2 + 4)) [x00; x00; x02; x30; x31; x32; x33]
       ≠ slice 3 (Z.to_nat (2 + 3)) [x00; x00; x02; x30; x31; x32; x33]).
Proof.
  apply (@C6_precert_slice_convention example_externals entry_precert
           [x00; x00; x00; x00; x00; x00; x49; x96; x02; xd2; x00; x01;
            x00; x00; x00; x00]
           "AAACMDEyMw==" [x00; x00; x02; x30; x31; x32; x33] 2);
    first [reflexivity | simpl; lia].
Defined.

Lemma C8_expiration_sweep_witness :
  example_store !! 0%nat = Some (sighting "aviator" 7)
  ∧ isExpired (sighting "aviator" 7) = false
  ∧ not_after (sighting "aviator" 7) < 5000
  ∧ main_sweep 5000 example_store !! 0%nat
    = Some (with_isExpired (sighting "aviator" 7) true)
  ∧ (∃ d', main_sweep 5000 example_store !! 0%nat = Some d'
           ∧ isExpired d' = true
           ∧ d' ≠ sighting "aviator" 7
           ∧ fingerprint_sha256 d' = fingerprint_sha256 (sighting "aviator" 7)
           ∧ not_after d' = not_after (sighting "aviator" 7))
  ∧ main_sweep 6000 (main_sweep 5000 example_store) = main_sweep 6000 example_store
  ∧ expired_kept example_store
      (ct_collection
         (snd (@main example_externals world_exact_window 2 (example_args 0)
                 (initial_state example_store)))).
Proof.
  destruct (@C8_expiration_sweep example_externals world_exact_window 5000 example_store)
    as (_ & Hlookup & Hfields & _ & _ & Hlater & _ & _ & Hrun).
  assert (not_after (sighting "aviator" 7) < 5000) as Hdue by (simpl; lia).
  split; [reflexivity|].
  split; [reflexivity|].
  split; [exact Hdue|].
  split; [exact (Hlookup 0%nat (sighting "aviator" 7) eq_refl)|].
  split.
  { destruct (Hfields 0%nat (sighting "aviator" 7) eq_refl)
      as (d' & Hd' & _ & Hset & Hdiff & Hfp & _ & _ & _ & Hna & _).
    exists d'. split; [exact Hd'|].
    split; [exact (Hset Hdue eq_refl)|].
    split; [exact (proj2 Hdiff (conj Hdue eq_refl))|].
    split; [exact Hfp|exact Hna]. }
  split; [apply Hlater; lia|].
  exact (Hrun 2%nat (example_args 0) (initial_state example_store) _ _
           (surjective_pairing _)).
Defined.

(** Counterexample to C9 as the specification words it: the empty buffer
    is shorter than 12 bytes and the decoder raises [IndexError]; the
    loop has no handler, so a run that meets such a leaf is aborted
    before the sweep, without completing the job. *)
Lemma C9_empty_buffer_counterexample :
  b64decode_rfc4648 "" = Ok []
  ∧ (length (@nil byte) < 12)%nat
  ∧ read_leaf_header [] = Raise IndexError
  ∧ @get_cert_from_leaf example_externals "" = Raise IndexError
  ∧ @main example_externals world_empty_leaf 2 (example_args 0) (initial_state [])
    = (Raises IndexError,
       {| ct_collection := [];
          trace := [CheckSaveLocation "/mnt/workspace/" "aviator";
                    RecordJobStart;
                    Get "https://ct.googleapis.com/aviator/ct/v1/get-sth";
                    Get "https://ct.googleapis.com/aviator/ct/v1/get-entries?start=0&end=1"];
          requests_sent := 2;
          clock_reads := 0 |}).
Proof. vm_compute. repeat split; lia. Qed.

Lemma C9_short_leaf_buffer_witness :
  b64decode_rfc4648 "AAA=" = Ok [x00; x00]
  ∧ (length [x00; x00] < 12)%nat
  ∧ @get_cert_from_leaf example_externals "AAA=" = Ok (None, 0)
  ∧ @main_select_der example_externals true {| leaf_input := "AAA="; extra_data := None |}
    = Ok None.
Proof.
  assert (b64decode_rfc4648 "AAA=" = Ok [x00; x00]) as Hdec by reflexivity.
  assert (length [x00; x00] < 12)%nat as Hlen by (simpl; lia).
  split; [exact Hdec|]. split; [exact Hlen|].
  destruct (@C9_short_leaf_buffer example_externals "AAA=" [x00; x00] Hdec Hlen)
    as [_ Hlong].
  destruct (Hlong ltac:(simpl; lia)) as (Hleaf & _ & Hskip).
  split; [exact Hleaf|].
  apply (Hskip true {| leaf_input := "AAA="; extra_data := None |} eq_refl).
  by left.
Defined.

(** Counterexample to C10 as the specification words it: not every
    [extra_data] makes [get_cert_from_extra_data] succeed.  The string
    ["A"] is no Base64 text: the decoder raises [binascii.Error], so does
    the function, and so does the loop at a precertificate entry that
    carries it; an entry without the ["extra_data"] key raises
    [KeyError] there. *)
Lemma C10_undecodable_extra_data_counterexample :
  b64decode_rfc4648 "A" = Raise BinasciiError
  ∧ @get_cert_from_extra_data example_externals "A" = Raise BinasciiError
  ∧ @main_select_der example_externals true entry_precert_bad_extra
    = Raise BinasciiError
  ∧ @main_select_der example_externals true entry_precert_no_extra
    = Raise (KeyError "extra_data").
Proof. by vm_compute. Qed.

Lemma C10_precert_no_length_validation_witness :
  b64decode_rfc4648 "AADIMA==" = Ok [x00; x00; xc8; x30]
  ∧ 200 = int_from_bytes_big (slice 0 3 [x00; x00; xc8; x30])
  ∧ @get_cert_from_extra_data example_externals "AADIMA=="
    = Ok (slice 3 (Z.to_nat (200 + 4)) [x00; x00; xc8; x30])
  ∧ slice 3 (Z.to_nat (200 + 4)) [x00; x00; xc8; x30] = [x30]
  ∧ b64decode_rfc4648 "A" = Raise BinasciiError
  ∧ extra_data entry_precert_bad_extra = Some "A"
  ∧ @main_select_der example_externals true entry_precert_bad_extra
    = Raise BinasciiError.
Proof.
  assert (b64decode_rfc4648 "AADIMA==" = Ok [x00; x00; xc8; x30]) as Hdec by reflexivity.
  assert (200 = int_from_bytes_big (slice 0 3 [x00; x00; xc8; x30])) as HL by reflexivity.
  split; [exact Hdec|]. split; [exact HL|].
  destruct (@C10_precert_no_length_validation example_externals "AADIMA==")
    as (_ & _ & Hok).
  destruct (Hok [x00; x00; xc8; x30] 200 Hdec HL) as (Hcert & _).
  split; [exact Hcert|]. split; [reflexivity|].
  destruct (@C10_precert_no_length_validation example_externals "A")
    as (_ & Hraise & _).
  split; [reflexivity|]. split; [reflexivity|].
  apply (Hraise BinasciiError entry_precert_bad_extra
           [x00; x00; x00; x00; x00; x00; x49; x96; x02; xd2; x00; x01;
            x00; x00; x00; x00]);
    first [reflexivity | simpl; lia].
Defined.

(** * Further properties of the code *)

(** ** The leaf decoder *)

Lemma byte_to_Z_bound (x : byte) : 0 ≤ byte_to_Z x < 256.
Proof. unfold byte_to_Z. pose proof (Byte.to_N_bounded x). lia. Qed.

Lemma int_from_bytes_big_acc_bound (b : list byte) (acc : Z) :
  0 ≤ acc →
  fold_left (λ acc x, acc * 256 + byte_to_Z x) b acc < (acc + 1) * 256 ^ Z.of_nat (length b).
Proof.
  revert acc. induction b as [|x b IH]; intros acc Hacc.
  - simpl. lia.
  - cbn [fold_left length]. pose proof (byte_to_Z_bound x) as Hx.
    specialize (IH (acc * 256 + byte_to_Z x) ltac:(lia)).
    rewrite Nat2Z.inj_succ, Z.pow_succ_r by lia.
    assert (0 < 256 ^ Z.of_nat (length b)) by (apply Z.pow_pos_nonneg; lia).
    nia.
Qed.

Lemma int_from_bytes_big_bound (b : list byte) :
  0 ≤ int_from_bytes_big b < 256 ^ Z.of_nat (length b).
Proof.
  split; [apply int_from_bytes_big_nonneg|].
  pose proof (int_from_bytes_big_acc_bound b 0 ltac:(lia)) as Hb.
  unfold int_from_bytes_big. lia.
Qed.

Lemma int_from_bytes_big_slice_bound {n : nat} (lo hi : nat) (b : list byte) :
  (hi - lo ≤ n)%nat → 0 ≤ int_from_bytes_big (slice lo hi b) < 256 ^ Z.of_nat n.
Proof.
  intros Hn. pose proof (int_from_bytes_big_bound (slice lo hi b)) as [H0 Hb].
  split; [done|]. eapply Z.lt_le_trans; [exact Hb|].
  apply Z.pow_le_mono_r; [lia|]. rewrite length_slice. lia.
Qed.

(** X1: [read_leaf_header] succeeds exactly on buffers of at least 2
    bytes and raises [IndexError] on shorter ones; the fields it returns
    are within the ranges of their widths (one byte each for the version
    and the leaf type, 8 bytes for the timestamp, 2 bytes for the entry
    type), and the payload is the buffer after its first 12 bytes. *)
Theorem X1_read_leaf_header_ranges (leaf : list byte) :
  match read_leaf_header leaf with
  | Ok h =>
      (2 ≤ length leaf)%nat
      ∧ 0 ≤ version h < 256
      ∧ 0 ≤ merkle_leaf_type h < 256
      ∧ 0 ≤ timestamp h < 2 ^ 64
      ∧ 0 ≤ LogEntryType h < 2 ^ 16
      ∧ Entry h = drop 12 leaf
      ∧ length (Entry h) = (length leaf - 12)%nat
  | Raise e => e = IndexError ∧ (length leaf < 2)%nat
  end.
Proof.
  destruct (le_lt_dec 2 (length leaf)) as [Hlong|Hshort].
  - unfold read_leaf_header.
    destruct (index_Ok leaf 0) as [v ->]; [lia|].
    destruct (index_Ok leaf 1) as [m ->]; [lia|].
    cbn [mbind result_bind version merkle_leaf_type timestamp LogEntryType Entry].
    split; [done|].
    split; [apply byte_to_Z_bound|]. split; [apply byte_to_Z_bound|].
    split; [apply (int_from_bytes_big_slice_bound (n := 8)); lia|].
    split; [apply (int_from_bytes_big_slice_bound (n := 2)); lia|].
    split; [done|]. unfold slice_from. by rewrite length_drop.
  - by rewrite read_leaf_header_Raise.
Qed.

(** X2: the layout read by [read_leaf_header].  A buffer made of a version
    byte, a leaf-type byte, 8 timestamp bytes, 2 entry-type bytes and a
    payload is split into exactly these parts, the two multi-byte fields
    being read as big-endian numbers. *)
Theorem X2_read_leaf_header_layout (v m : byte) (ts ty payload : list byte) :
  length ts = 8%nat →
  length ty = 2%nat →
  read_leaf_header (v :: m :: ts ++ ty ++ payload)
  = Ok {| version := byte_to_Z v;
          merkle_leaf_type := byte_to_Z m;
          timestamp := int_from_bytes_big ts;
          LogEntryType := int_from_bytes_big ty;
          Entry := payload |}.
Proof.
  intros Hts Hty. unfold read_leaf_header, index. cbn [lookup list_lookup].
  cbn [mbind result_bind]. unfold slice, slice_from.
  change (drop 2 (v :: m :: ts ++ ty ++ payload)) with (ts ++ ty ++ payload).
  change (drop 10 (v :: m :: ts ++ ty ++ payload)) with (drop 8 (ts ++ ty ++ payload)).
  change (drop 12 (v :: m :: ts ++ ty ++ payload)) with (drop 10 (ts ++ ty ++ payload)).
  change (10 - 2)%nat with 8%nat. change (12 - 10)%nat with 2%nat.
  rewrite take_app_length' by done.
  rewrite drop_app_length' by done.
  rewrite take_app_length' by done.
  replace 10%nat with (length ts + length ty)%nat by lia.
  rewrite <- drop_drop, drop_app_length, drop_app_length. reflexivity.
Qed.

Lemma X2_read_leaf_header_layout_witness :
  read_leaf_header leaf_x509_bytes
  = Ok {| version := 0;
          merkle_leaf_type := 0;
          timestamp := 1234567890;
          LogEntryType := 0;
          Entry := [x00; x00; x01; x30; x00; x00] |}.
Proof.
  exact (X2_read_leaf_header_layout x00 x00
           [x00; x00; x00; x00; x49; x96; x02; xd2] [x00; x00]
           [x00; x00; x01; x30; x00; x00] eq_refl eq_refl).
Defined.

Section DecoderCases.
Context `{!Externals}.

(** X3: every outcome of [get_cert_from_leaf].  A failure of the Base64
    decoding is passed on; decoded data of fewer than 2 bytes raises
    [IndexError]; otherwise the entry type is the number at offsets 10
    and 11, no certificate is returned when it is 1 or when the declared
    length differs from the rest of the payload minus 2, and a returned
    certificate is the data from offset 15 on, never of entry type 1, at
    least 2 and at most 2^24 + 1 bytes long. *)
Theorem X3_get_cert_from_leaf_cases (leaf : string) :
  match b64decode leaf with
  | Raise e => get_cert_from_leaf leaf = Raise e
  | Ok data =>
      let declared := int_from_bytes_big (slice 0 3 (drop 12 data)) in
      match get_cert_from_leaf leaf with
      | Raise e => e = IndexError ∧ (length data < 2)%nat
      | Ok (None, t) =>
          (2 ≤ length data)%nat
          ∧ t = int_from_bytes_big (slice 10 12 data)
          ∧ (t = 1 ∨ declared ≠ Z.of_nat (length (drop 15 data)) - 2)
      | Ok (Some cert, t) =>
          t = int_from_bytes_big (slice 10 12 data)
          ∧ t ≠ 1
          ∧ cert = drop 15 data
          ∧ Z.of_nat (length cert) = declared + 2
          ∧ 2 ≤ Z.of_nat (length cert) < 2 ^ 24 + 2
      end
  end.
Proof.
  destruct (b64decode leaf) as [data|e] eqn:Hdec.
  - intros declared.
    destruct (le_lt_dec 2 (length data)) as [Hlong|Hshort].
    + rewrite (get_cert_from_leaf_unfold leaf data Hdec Hlong). cbv zeta.
      destruct (Z.eqb_spec (int_from_bytes_big (slice 10 12 data)) 1) as [Hone|Hone].
      { split; [done|]. split; [done|]. by left. }
      fold declared.
      destruct (Z.eqb_spec declared (Z.of_nat (length (drop 15 data)) - 2)) as [Hd|Hd].
      * cbn [negb]. split; [done|]. split; [done|]. split; [done|].
        pose proof (int_from_bytes_big_slice_bound (n := 3) 0 3 (drop 12 data)
                      ltac:(lia)) as Hb.
        fold declared in Hb. change (256 ^ Z.of_nat 3) with (2 ^ 24) in Hb. lia.
      * cbn [negb]. split; [done|]. split; [done|]. by right.
    + by rewrite (get_cert_from_leaf_too_short leaf data Hdec Hshort).
  - unfold get_cert_from_leaf. by rewrite Hdec.
Qed.

(** X4: only the entry type 1 is told apart.  A leaf of any other type
    than 0 and 1 is decoded like an X.509 entry: with a consistent
    declared length its payload goes on to the parser under that type,
    and with an inconsistent one the entry is not skipped: the parser is
    called without a certificate. *)
Theorem X4_unknown_entry_type (e : entry) (data : list byte) (t : Z) (include : bool) :
  b64decode (leaf_input e) = Ok data →
  (2 ≤ length data)%nat →
  int_from_bytes_big (slice 10 12 data) = t →
  t ≠ 0 → t ≠ 1 →
  main_select_der include e
  = if int_from_bytes_big (slice 0 3 (drop 12 data))
       =? Z.of_nat (length (drop 15 data)) - 2
    then Ok (Some (Some (drop 15 data), t))
    else Ok (Some (None, t)).
Proof.
  intros Hdec Hlen Hty H0 H1. unfold main_select_der.
  rewrite (get_cert_from_leaf_unfold _ data Hdec Hlen). cbv zeta. rewrite Hty.
  destruct (Z.eqb_spec t 1) as [|_]; [done|].
  destruct (_ =? _ - 2); cbn [negb mbind result_bind].
  - rewrite bool_decide_eq_false_2 by done. reflexivity.
  - rewrite bool_decide_eq_true_2 by done.
    destruct (Z.eqb_spec t 1) as [|_]; [done|].
    destruct (Z.eqb_spec t 0) as [|_]; [done|]. reflexivity.
Qed.

(** X5: the precertificate path of the loop.  With precertificates
    excluded, an entry of type 1 is skipped without its extra data being
    read; with precertificates included, a missing ["extra_data"] key
    raises [KeyError], extra data that do not decode raise the decoder's
    error, and decoded extra data give the slice [3 : L+4]. *)
Theorem X5_precert_path (e : entry) (leaf_data : list byte) :
  b64decode (leaf_input e) = Ok leaf_data →
  (2 ≤ length leaf_data)%nat →
  int_from_bytes_big (slice 10 12 leaf_data) = 1 →
  main_select_der false e = Ok None
  ∧ main_select_der true e
    = match extra_data e with
      | None => Raise (KeyError "extra_data")
      | Some x =>
          match b64decode x with
          | Raise err => Raise err
          | Ok data =>
              Ok (Some (Some (slice 3 (Z.to_nat (int_from_bytes_big (slice 0 3 data) + 4))
                                data), 1))
          end
      end.
Proof.
  intros Hdec Hlen Hty. unfold main_select_der.
  rewrite (get_cert_from_leaf_unfold _ leaf_data Hdec Hlen). cbv zeta. rewrite Hty.
  cbn. split; [done|].
  unfold get_extra_data. destruct (extra_data e) as [x|]; [|done].
  cbn. unfold get_cert_from_extra_data. by destruct (b64decode x).
Qed.
End DecoderCases.

Lemma X4_unknown_entry_type_witness :
  @main_select_der example_externals true entry_unknown_type
  = Ok (Some (Some [x30; x00; x00], 2))
  ∧ @main_select_der example_externals true entry_unknown_type_mismatch
    = Ok (Some (None, 2)).
Proof.
  split.
  - exact (@X4_unknown_entry_type example_externals entry_unknown_type
             leaf_unknown_type_bytes 2 true eq_refl ltac:(simpl; lia) eq_refl
             ltac:(lia) ltac:(lia)).
  - exact (@X4_unknown_entry_type example_externals entry_unknown_type_mismatch
             [x00; x00; x00; x00; x00; x00; x49; x96; x02; xd2; x00; x02;
              x00; x00; x05; x30; x00; x00]
             2 true eq_refl ltac:(simpl; lia) eq_refl ltac:(lia) ltac:(lia)).
Defined.

Lemma X5_precert_path_witness :
  @main_select_der example_externals false entry_precert_no_extra = Ok None
  ∧ @main_select_der example_externals true entry_precert_no_extra
    = Raise (KeyError "extra_data")
  ∧ @main_select_der example_externals true entry_precert_bad_extra
    = Raise BinasciiError.
Proof.
  destruct (@X5_precert_path example_externals entry_precert_no_extra
              [x00; x00; x00; x00; x00; x00; x49; x96; x02; xd2; x00; x01;
               x00; x00; x00; x00]
              eq_refl ltac:(simpl; lia) eq_refl) as [Hskip Hraise].
  destruct (@X5_precert_path example_externals entry_precert_bad_extra
              [x00; x00; x00; x00; x00; x00; x49; x96; x02; xd2; x00; x01;
               x00; x00; x00; x00]
              eq_refl ltac:(simpl; lia) eq_refl) as [_ Hbad].
  split; [exact Hskip|]. split; [exact Hraise|exact Hbad].
Defined.

(** ** The certificate store *)

Lemma addToSet_idemp (l : list string) (x : string) :
  addToSet (addToSet l x) x = addToSet l x.
Proof.
  unfold addToSet at 1. rewrite bool_decide_eq_true_2; [done|].
  apply elem_of_addToSet. by right.
Qed.

Lemma update_many_none (query : certificate → bool)
    (update : certificate → certificate) (c : list certificate) :
  find_count query c = 0%nat → update_many query update c = c.
Proof.
  unfold find_count, update_many. induction c as [|d c IH]; simpl; [done|].
  destruct (query d); simpl; [done|]. intros Hc. by rewrite IH.
Qed.

Lemma update_many_app (query : certificate → bool)
    (update : certificate → certificate) (c1 c2 : list certificate) :
  update_many query update (c1 ++ c2)
  = update_many query update c1 ++ update_many query update c2.
Proof. unfold update_many. apply map_app. Qed.

Lemma update_many_idemp (query : certificate → bool)
    (update : certificate → certificate) (c : list certificate) :
  (∀ d, query d = true → query (update d) = true ∧ update (update d) = update d) →
  update_many query update (update_many query update c) = update_many query update c.
Proof.
  intros Hup. unfold update_many. rewrite map_map. apply map_ext. intros d.
  destruct (query d) eqn:E; [|by rewrite E].
  destruct (Hup d E) as [-> ->]. done.
Qed.

Lemma with_update_idemp (d : certificate) (source : string) (id : Z) (log_type : string)
    (cert_zones : list string) (now : Z) :
  let u d := with_update d source id log_type cert_zones now (addToSet (sources d) source) in
  u (u d) = u d.
Proof.
  intros u. unfold u, with_update. simpl. f_equal.
  - apply addToSet_idemp.
  - apply insert_insert_eq.
Qed.

Lemma with_update_twice (d : certificate) (source : string) (id : Z) (log_type : string)
    (cert_zones : list string) (now1 now2 : Z) :
  let u now d :=
    with_update d source id log_type cert_zones now (addToSet (sources d) source) in
  u now2 (u now1 d) = u now2 d.
Proof.
  intros u. unfold u, with_update. simpl. f_equal.
  - apply addToSet_idemp.
  - apply insert_insert_eq.
Qed.

Lemma with_update_again (d : certificate) (source : string) (id : Z) (log_type : string)
    (cert_zones : list string) (now1 now2 : Z) :
  let u now d :=
    with_update d source id log_type cert_zones now (addToSet (sources d) source) in
  marinus_updated (u now1 d) = now1
  ∧ marinus_updated (u now2 (u now1 d)) = now2
  ∧ same_but_marinus_updated (u now1 d) (u now2 (u now1 d)).
Proof.
  intros u. split; [done|]. split; [done|].
  unfold same_but_marinus_updated, u, with_update. simpl.
  repeat split; [apply addToSet_idemp|apply insert_insert_eq].
Qed.

(** X6: upserting the same certificate a second time, the clock being
    read anew at each update.  When its fingerprint was already stored,
    the two upserts at the times [now1] and [now2] give the store that
    the single upsert at [now2] gives: the second one only moves
    [marinus_updated] of the records of that fingerprint from [now1] to
    [now2], leaves every other field and every other record as the first
    left them, and changes nothing at all when the clock has not moved.
    When the fingerprint was not stored, the first upsert appends the
    certificate as it is, without any time, and the second one updates
    only that new record, replacing its zones, [marinus_updated] and
    [sources] as an update at [now2] does. *)
Theorem X6_upsert_twice (now1 now2 : Z) (cert : certificate) (source : string)
    (collection : list certificate) (cert_zones : list string) (id : Z) :
  source_id cert !! source = Some id →
  let fp := fingerprint_sha256 cert in
  (find_count (by_fingerprint fp) collection ≠ 0%nat →
     ∃ first second,
       insert_certificate now1 cert source collection cert_zones = Ok first
       ∧ insert_certificate now2 cert source first cert_zones = Ok second
       ∧ insert_certificate now2 cert source collection cert_zones = Ok second
       ∧ (now1 = now2 → second = first)
       ∧ length second = length first
       ∧ ∀ i d1, first !! i = Some d1 →
           ∃ d2, second !! i = Some d2
             ∧ (by_fingerprint fp d1 = false → d2 = d1)
             ∧ (by_fingerprint fp d1 = true →
                marinus_updated d1 = now1
                ∧ marinus_updated d2 = now2
                ∧ same_but_marinus_updated d1 d2))
  ∧ (find_count (by_fingerprint fp) collection = 0%nat →
     insert_certificate now1 cert source collection cert_zones = Ok (collection ++ [cert])
     ∧ insert_certificate now2 cert source (collection ++ [cert]) cert_zones
       = Ok (collection
             ++ [with_update cert source id (ct_log_type cert) cert_zones now2
                   (addToSet (sources cert) source)])).
Proof.
  intros Hid fp. split.
  - intros Hsome. unfold insert_certificate. fold fp. rewrite Hid.
    destruct (Nat.eqb_spec (find_count (by_fingerprint fp) collection) 0) as [|_]; [done|].
    set (u now d := with_update d source id (ct_log_type cert) cert_zones now
                      (addToSet (sources d) source)).
    assert (update_many (by_fingerprint fp) (u now2)
              (update_many (by_fingerprint fp) (u now1) collection)
            = update_many (by_fingerprint fp) (u now2) collection) as Htwice.
    { unfold update_many. rewrite map_map. apply map_ext. intros d.
      destruct (by_fingerprint fp d) eqn:E; [|by rewrite E].
      assert (by_fingerprint fp (u now1 d) = true) as -> by exact E.
      apply with_update_twice. }
    exists (update_many (by_fingerprint fp) (u now1) collection),
           (update_many (by_fingerprint fp) (u now2) collection).
    split; [reflexivity|].
    rewrite find_count_update_many by done.
    destruct (Nat.eqb_spec (find_count (by_fingerprint fp) collection) 0) as [|_]; [done|].
    split; [by rewrite <- Htwice|].
    split; [reflexivity|].
    split; [by intros ->|].
    split; [unfold update_many; by rewrite !length_map|].
    intros i d1 Hd1. rewrite <- Htwice, lookup_update_many, Hd1. simpl.
    eexists. split; [reflexivity|].
    split; [by intros ->|]. intros Hfp. rewrite Hfp.
    rewrite lookup_update_many in Hd1.
    destruct (collection !! i) as [d|]; [|done]. simpl in Hd1.
    destruct (by_fingerprint fp d) eqn:E.
    + injection Hd1 as <-. apply with_update_again.
    + injection Hd1 as <-. congruence.
  - intros Hnone. unfold insert_certificate. fold fp. rewrite Hid, Hnone.
    split; [done|].
    rewrite find_count_app, Hnone.
    assert (by_fingerprint fp cert = true) as Hself.
    { unfold by_fingerprint, fp. apply String.eqb_refl. }
    unfold find_count at 1. simpl. rewrite Hself. simpl.
    rewrite update_many_app, update_many_none by done.
    unfold update_many. simpl. by rewrite Hself.
Qed.

Lemma X6_upsert_twice_witness :
  source_id (sighting "pilot" 40) !! "pilot" = Some 40
  ∧ find_count (by_fingerprint (fingerprint_sha256 (sighting "pilot" 40))) example_store
    ≠ 0%nat
  ∧ ∃ first second,
      insert_certificate 5000 (sighting "pilot" 40) "pilot" example_store ["example.com"]
      = Ok first
      ∧ insert_certificate 6000 (sighting "pilot" 40) "pilot" first ["example.com"]
        = Ok second
      ∧ insert_certificate 6000 (sighting "pilot" 40) "pilot" example_store
          ["example.com"]
        = Ok second
      ∧ marinus_updated <$> first !! 0%nat = Some 5000
      ∧ marinus_updated <$> second !! 0%nat = Some 6000.
Proof.
  assert (source_id (sighting "pilot" 40) !! "pilot" = Some 40) as Hid by by vm_compute.
  assert (find_count (by_fingerprint (fingerprint_sha256 (sighting "pilot" 40)))
            example_store ≠ 0%nat) as Hfound by by vm_compute.
  split; [exact Hid|]. split; [exact Hfound|].
  destruct (X6_upsert_twice 5000 6000 (sighting "pilot" 40) "pilot" example_store
              ["example.com"] 40 Hid) as [Hpresent _].
  destruct (Hpresent Hfound) as (first & second & Hfirst & Hsecond & Hone & _).
  exists first, second.
  split; [exact Hfirst|]. split; [exact Hsecond|]. split; [exact Hone|].
  split.
  - exact (eq_sym (f_equal (λ r, match r with
                                 | Ok stored => marinus_updated <$> stored !! 0%nat
                                 | Raise _ => None
                                 end) Hfirst)).
  - exact (eq_sym (f_equal (λ r, match r with
                                 | Ok stored => marinus_updated <$> stored !! 0%nat
                                 | Raise _ => None
                                 end) Hone)).
Defined.

Lemma elem_of_insert_certificate (now : Z) (cert : certificate) (source : string)
    (collection updated : list certificate) (cert_zones : list string) (id : Z)
    (d1 : certificate) :
  source_id cert !! source = Some id →
  insert_certificate now cert source collection cert_zones = Ok updated →
  d1 ∈ updated →
  source_id d1 !! source = Some id
  ∨ ∃ d, d ∈ collection ∧ source_id d1 !! source = source_id d !! source.
Proof.
  intros Hid. unfold insert_certificate. rewrite Hid.
  destruct (_ =? _)%nat; intros [= <-] Hd1.
  - apply elem_of_app in Hd1 as [Hd1|Hd1]; [right; eauto|].
    apply list_elem_of_singleton in Hd1 as ->. by left.
  - unfold update_many in Hd1. apply list_elem_of_fmap in Hd1 as (d & -> & Hd).
    destruct (by_fingerprint _ d); [left; apply lookup_insert_eq|right; eauto].
Qed.

Lemma insert_certificate_has_id (now : Z) (cert : certificate) (source : string)
    (collection updated : list certificate) (cert_zones : list string) (id : Z) :
  source_id cert !! source = Some id →
  insert_certificate now cert source collection cert_zones = Ok updated →
  ∃ d1, d1 ∈ updated
        ∧ fingerprint_sha256 d1 = fingerprint_sha256 cert
        ∧ source_id d1 !! source = Some id.
Proof.
  intros Hid. unfold insert_certificate. rewrite Hid.
  destruct (Nat.eqb_spec (find_count (by_fingerprint (fingerprint_sha256 cert)) collection) 0)
    as [Hnone|Hsome]; intros [= <-].
  - exists cert. split; [|done]. apply elem_of_app. right. apply list_elem_of_here.
  - unfold find_count in Hsome.
    destruct (List.filter _ collection) as [|d rest] eqn:E; [done|].
    assert (In d (List.filter (by_fingerprint (fingerprint_sha256 cert)) collection))
      as Hd by (rewrite E; by left).
    apply filter_In in Hd as [Hd Hq]. apply list_elem_of_In in Hd.
    eexists. split.
    + unfold update_many. apply list_elem_of_fmap. exists d. split; [reflexivity|done].
    + rewrite Hq. simpl. split; [|apply lookup_insert_eq].
      by apply String.eqb_eq.
Qed.

(** X7: the cursor after an upsert.  Once a certificate found at index
    [id] has been upserted, the starting index resolved from the store
    for that source is at least [id]; it is exactly [id] when no stored
    record of the source had a larger index, as in a crawl that moves
    forward. *)
Theorem X7_upsert_then_cursor (now : Z) (cert : certificate) (source : string)
    (collection updated : list certificate) (cert_zones : list string) (id : Z) :
  source_id cert !! source = Some id →
  insert_certificate now cert source collection cert_zones = Ok updated →
  ∃ m, fetch_starting_index updated source = Some m
       ∧ id ≤ m
       ∧ ((∀ x, x ∈ omap (λ d, source_id d !! source) collection → x ≤ id) → m = id).
Proof.
  intros Hid Hup.
  destruct (insert_certificate_has_id now cert source collection updated cert_zones id
              Hid Hup) as (d1 & Hd1 & _ & Hd1id).
  assert (id ∈ omap (λ d, source_id d !! source) updated) as Hin.
  { apply list_elem_of_omap. eauto. }
  destruct (fetch_starting_index_max updated source) as [_ Hmax].
  destruct Hmax as (m & Hm & Hmin & Hmmax).
  { intros Hnil. rewrite Hnil in Hin. by apply not_elem_of_nil in Hin. }
  exists m. split; [done|]. split; [by apply Hmmax|].
  intros Hall. apply Z.le_antisymm; [|by apply Hmmax].
  apply list_elem_of_omap in Hmin as (d & Hd & Hdm).
  destruct (elem_of_insert_certificate now cert source collection updated cert_zones id d
              Hid Hup Hd) as [Heq|(d0 & Hd0 & Heq)].
  - rewrite Heq in Hdm. injection Hdm as <-. lia.
  - apply Hall. apply list_elem_of_omap. exists d0. split; [done|]. congruence.
Qed.

Lemma X7_upsert_then_cursor_witness :
  source_id (sighting "aviator" 40) !! "aviator" = Some 40
  ∧ ∃ updated,
      insert_certificate 5000 (sighting "aviator" 40) "aviator" example_store
        ["example.com"] = Ok updated
      ∧ fetch_starting_index updated "aviator" = Some 40.
Proof.
  assert (source_id (sighting "aviator" 40) !! "aviator" = Some 40) as Hid
    by by vm_compute.
  split; [exact Hid|].
  destruct (insert_certificate_Ok 5000 (sighting "aviator" 40) "aviator" example_store
              ["example.com"] 40 Hid) as [updated Hup].
  exists updated. split; [exact Hup|].
  destruct (X7_upsert_then_cursor 5000 (sighting "aviator" 40) "aviator" example_store
              updated ["example.com"] 40 Hid Hup) as (m & Hm & _ & Hexact).
  rewrite Hm. f_equal. apply Hexact.
  intros x Hx. vm_compute in Hx.
  repeat (apply elem_of_cons in Hx as [->|Hx]; [lia|]).
  by apply not_elem_of_nil in Hx.
Defined.

Lemma omap_update_many {B} (f : certificate → option B) (query : certificate → bool)
    (update : certificate → certificate) (c : list certificate) :
  (∀ d, f (update d) = f d) →
  omap f (update_many query update c) = omap f c.
Proof.
  intros Hf. unfold update_many. induction c as [|d c IH]; simpl; [done|].
  assert (f (if query d then update d else d) = f d) as ->.
  { destruct (query d); [apply Hf|done]. }
  destruct (f d); [f_equal|]; exact IH.
Qed.

Lemma fetch_starting_index_update_many (query : certificate → bool)
    (update : certificate → certificate) (c : list certificate) (source : string) :
  (∀ d, source_id (update d) !! source = source_id d !! source) →
  fetch_starting_index (update_many query update c) source = fetch_starting_index c source.
Proof.
  intros Hf. unfold fetch_starting_index.
  by rewrite (omap_update_many (λ d, source_id d !! source)).
Qed.

(** X8: what the sweep leaves behind.  After the sweep no record is both
    due ([not_after] before now) and unexpired; the number of expired
    records has grown by the number of records that were due and
    unexpired; the number of records of each fingerprint and the cursor
    resolved for each source are what they were. *)
Theorem X8_sweep_postcondition (utcnow : Z) (collection : list certificate) :
  find_count (expiration_query utcnow) (main_sweep utcnow collection) = 0%nat
  ∧ find_count isExpired (main_sweep utcnow collection)
    = (find_count isExpired collection
       + find_count (expiration_query utcnow) collection)%nat
  ∧ (∀ fp, find_count (by_fingerprint fp) (main_sweep utcnow collection)
           = find_count (by_fingerprint fp) collection)
  ∧ (∀ source, fetch_starting_index (main_sweep utcnow collection) source
               = fetch_starting_index collection source).
Proof.
  split; [|split; [|split]].
  - unfold main_sweep, update_many, find_count.
    induction collection as [|d c IH]; simpl; [done|].
    destruct (expiration_query utcnow d) eqn:E.
    + rewrite expiration_query_expired by done. exact IH.
    + rewrite E. exact IH.
  - unfold main_sweep, update_many, find_count.
    induction collection as [|d c IH]; simpl; [done|].
    destruct (expiration_query utcnow d) eqn:E; simpl.
    + unfold expiration_query in E. apply andb_true_iff in E as [_ E].
      apply bool_decide_eq_true in E. rewrite E. simpl. rewrite IH. lia.
    + destruct (isExpired d); simpl; rewrite IH; lia.
  - intros fp. by apply find_count_update_many.
  - intros source. by apply fetch_starting_index_update_many.
Qed.

(** X9: an update commutes with the sweep.  When the fingerprint is
    already stored, sweeping after the upsert gives the same store as
    upserting after the sweep: the update writes neither [not_after] nor
    [isExpired], and the sweep writes nothing else. *)
Theorem X9_update_commutes_with_sweep (now utcnow : Z) (cert : certificate)
    (source : string) (collection : list certificate) (cert_zones : list string) (id : Z) :
  source_id cert !! source = Some id →
  find_count (by_fingerprint (fingerprint_sha256 cert)) collection ≠ 0%nat →
  ∃ updated,
    insert_certificate now cert source collection cert_zones = Ok updated
    ∧ insert_certificate now cert source (main_sweep utcnow collection) cert_zones
      = Ok (main_sweep utcnow updated).
Proof.
  intros Hid Hsome. unfold insert_certificate. rewrite Hid.
  unfold main_sweep at 1. rewrite find_count_update_many by done.
  destruct (Nat.eqb_spec (find_count (by_fingerprint (fingerprint_sha256 cert)) collection) 0)
    as [|_]; [done|].
  eexists. split; [reflexivity|]. f_equal.
  unfold main_sweep, update_many. rewrite !map_map. apply map_ext. intros d.
  destruct (by_fingerprint (fingerprint_sha256 cert) d) eqn:Eq,
           (expiration_query utcnow d) eqn:Ex;
    unfold by_fingerprint, expiration_query in *; simpl; rewrite ?Eq, ?Ex; reflexivity.
Qed.

Lemma X9_update_commutes_with_sweep_witness :
  source_id (sighting "pilot" 40) !! "pilot" = Some 40
  ∧ find_count (by_fingerprint (fingerprint_sha256 (sighting "pilot" 40))) example_store
    ≠ 0%nat
  ∧ ∃ updated,
      insert_certificate 5000 (sighting "pilot" 40) "pilot" example_store ["example.com"]
      = Ok updated
      ∧ insert_certificate 5000 (sighting "pilot" 40) "pilot"
          (main_sweep 5000 example_store) ["example.com"]
        = Ok (main_sweep 5000 updated).
Proof.
  assert (source_id (sighting "pilot" 40) !! "pilot" = Some 40) as Hid by by vm_compute.
  assert (find_count (by_fingerprint (fingerprint_sha256 (sighting "pilot" 40)))
            example_store ≠ 0%nat) as Hfound by by vm_compute.
  split; [exact Hid|]. split; [exact Hfound|].
  exact (X9_update_commutes_with_sweep 5000 5000 (sighting "pilot" 40) "pilot"
           example_store ["example.com"] 40 Hid Hfound).
Defined.

(** ** Requests *)

Lemma make_https_request_cases (w : world) (url : string) (s : state) :
  make_https_request w url s
  = match session_get w (requests_sent s) url with
    | Responds status_code body =>
        (Returns (if status_code =? 200 then Some body else None), after_get url s)
    | Fails HTTPError => (Returns None, after_get url s)
    | Fails _ => (Exits 1, after_job_error (after_get url s))
    end.
Proof.
  unfold make_https_request, make_https_request_rec, try_get.
  unfold mbind, prog_bind, session_get_call.
  destruct (session_get w (requests_sent s) url) as [c body|e].
  - destruct (Z.eqb_spec c 200) as [->|Hne]; [reflexivity|].
    apply Z.eqb_neq in Hne.
    destruct ((400 <=? c) && (c <? 600)); simpl; rewrite ?Hne; reflexivity.
  - destruct e; reflexivity.
Qed.

Lemma make_https_request_trichotomy (w : world) (url : string) (s : state) :
  (∃ body, session_get w (requests_sent s) url = Responds 200 body
           ∧ make_https_request w url s = (Returns (Some body), after_get url s))
  ∨ make_https_request w url s = (Returns None, after_get url s)
  ∨ make_https_request w url s = (Exits 1, after_job_error (after_get url s)).
Proof.
  rewrite make_https_request_cases.
  destruct (session_get w (requests_sent s) url) as [c body|e].
  - destruct (Z.eqb_spec c 200) as [->|_]; [left; eauto|right; by left].
  - destruct e; (right; by left) || (right; by right).
Qed.

(** X10: [make_https_request] makes a single attempt.  Whatever the
    answer, exactly one GET is sent: the body is returned for the status
    200, [None] for any other status and for an [HTTPError], and anything
    else that is raised, timeouts included, records the job error and
    exits with status 1 without a second attempt. *)
Theorem X10_make_https_request_single_attempt (w : world) (url : string) (s : state) :
  make_https_request w url s
  = match session_get w (requests_sent s) url with
    | Responds status_code body =>
        (Returns (if status_code =? 200 then Some body else None), after_get url s)
    | Fails HTTPError => (Returns None, after_get url s)
    | Fails _ => (Exits 1, after_job_error (after_get url s))
    end
  ∧ requests_sent (make_https_request w url s).2 = S (requests_sent s)
  ∧ requested (trace (make_https_request w url s).2) = requested (trace s) ++ [url].
Proof.
  split; [apply make_https_request_cases|].
  destruct (make_https_request_trichotomy w url s) as [(body & _ & ->)|[->| ->]];
    simpl; rewrite ?requested_app, ?app_nil_r; done.
Qed.

(** X11: the effort and the endings of [fetch_certificate_batch].  It
    sends one request, or two with one sleep of 600 seconds in between,
    and nothing else; it never touches the store; when it exits, the
    status is 1 and the job error is the last thing recorded; when it
    returns, the document comes from an answer with status 200 to the
    first or to the second request. *)
Theorem X11_fetch_certificate_batch_effort (w : world) (url : string) (a b : Z)
    (s : state) (o : outcome json) (s' : state) :
  fetch_certificate_batch w url a b s = (o, s') →
  let target := url +:+ "/ct/v1/get-entries?start=" +:+ str a +:+ "&end=" +:+ str b in
  (∃ t, trace s' = trace s ++ Get target :: t
        ∧ (t = [] ∨ t = [RecordJobError] ∨ t = [Sleep 600; Get target]
           ∨ t = [Sleep 600; Get target; RecordJobError]))
  ∧ (requests_sent s < requests_sent s' ≤ requests_sent s + 2)%nat
  ∧ ct_collection s' = ct_collection s
  ∧ o ≠ OutOfFuel
  ∧ (∀ c, o = Exits c → c = 1 ∧ list.last (trace s') = Some RecordJobError)
  ∧ (∀ j, o = Returns j →
       ∃ k, (k = requests_sent s ∨ k = S (requests_sent s))
            ∧ session_get w k target = Responds 200 (Document j)).
Proof.
  intros Hrun target. unfold fetch_certificate_batch in Hrun. fold target in Hrun.
  unfold mbind at 1, prog_bind at 1 in Hrun.
  destruct (make_https_request_trichotomy w target s) as [(body & Hget & E)|[E|E]];
    rewrite E in Hrun.
  - (* the first answer has status 200 *)
    unfold mbind, prog_bind, lift in Hrun. simpl in Hrun.
    destruct body as [j|]; simpl in Hrun; injection Hrun as <- <-; simpl.
    + split; [exists []; split; [done|by left]|].
      split; [lia|]. split; [done|]. split; [done|]. split; [done|].
      intros j' [= <-]. exists (requests_sent s). split; [by left|done].
    + split; [exists []; split; [done|by left]|].
      split; [lia|]. split; [done|]. split; [done|]. split; done.
  - (* no result: sleep, then the second request *)
    unfold mbind at 1, prog_bind at 1 in Hrun.
    unfold mbind at 1, prog_bind at 1 in Hrun. unfold emit at 1 in Hrun.
    match type of Hrun with
    | context [make_https_request w target ?s1] =>
        destruct (make_https_request_trichotomy w target s1)
          as [(body & Hget & E2)|[E2|E2]];
        rewrite E2 in Hrun
    end.
    + simpl in Hget. unfold lift in Hrun.
      destruct body as [j|]; simpl in Hrun; injection Hrun as <- <-; simpl.
      * split; [exists [Sleep 600; Get target];
                split; [by rewrite <- !app_assoc|by right; right; left]|].
        split; [lia|]. split; [done|]. split; [done|]. split; [done|].
        intros j' [= <-]. exists (S (requests_sent s)). split; [by right|done].
      * split; [exists [Sleep 600; Get target];
                split; [by rewrite <- !app_assoc|by right; right; left]|].
        split; [lia|]. split; [done|]. split; [done|]. split; done.
    + unfold mbind, prog_bind, emit, exit in Hrun. simpl in Hrun.
      injection Hrun as <- <-. simpl.
      split; [exists [Sleep 600; Get target; RecordJobError];
              split; [by rewrite <- !app_assoc|by right; right; right]|].
      split; [lia|]. split; [done|]. split; [done|].
      split; [|done]. intros c [= <-]. split; [done|apply last_snoc].
    + injection Hrun as <- <-. simpl.
      split; [exists [Sleep 600; Get target; RecordJobError];
              split; [by rewrite <- !app_assoc|by right; right; right]|].
      split; [lia|]. split; [done|]. split; [done|].
      split; [|done]. intros c [= <-]. split; [done|apply last_snoc].
  - (* fatal at the first request *)
    injection Hrun as <- <-. simpl.
    split; [exists [RecordJobError]; split; [by rewrite <- !app_assoc|by right; left]|].
    split; [lia|]. split; [done|]. split; [done|].
    split; [|done]. intros c [= <-]. split; [done|apply last_snoc].
Qed.

Lemma X11_fetch_certificate_batch_effort_witness :
  ∃ t, trace (fetch_certificate_batch world_unavailable "https://log" 0 256
                (initial_state [])).2
       = [] ++ Get "https://log/ct/v1/get-entries?start=0&end=256" :: t
       ∧ (t = [] ∨ t = [RecordJobError]
          ∨ t = [Sleep 600; Get "https://log/ct/v1/get-entries?start=0&end=256"]
          ∨ t = [Sleep 600; Get "https://log/ct/v1/get-entries?start=0&end=256";
                 RecordJobError]).
Proof.
  exact (proj1 (X11_fetch_certificate_batch_effort world_unavailable "https://log" 0 256
                  (initial_state []) _ _ (surjective_pairing _))).
Defined.

(** X12: a tree head that cannot be fetched.  When the session returns
    a response to the request for the signed tree head whose status is not
    200 (a status the session hands over: none of [status_forcelist],
    which end as a [RetryError]), or when [HTTPError] is raised,
    [fetch_sth] passes [None] to [json.loads]: the run ends with a
    [TypeError] after that single request, with no second attempt, no
    sleep and no job error recorded.  A [RetryError], as any other
    exception of the request, records the job error and exits with
    status 1. *)
Theorem X12_fetch_sth_soft_failure (w : world) (url : string) (s : state) :
  let target := url +:+ "/ct/v1/get-sth" in
  session_outcome (session_get w (requests_sent s) target) →
  fetch_sth w url s =
  match session_get w (requests_sent s) target with
  | Responds status_code body =>
      if status_code =? 200
      then (match body with
            | Document j => Returns j
            | Malformed => Raises JSONDecodeError
            end, after_get target s)
      else (Raises TypeError, after_get target s)
  | Fails HTTPError => (Raises TypeError, after_get target s)
  | Fails _ => (Exits 1, after_job_error (after_get target s))
  end.
Proof.
  intros target _. unfold fetch_sth. fold target. unfold mbind, prog_bind.
  rewrite make_https_request_cases.
  destruct (session_get w (requests_sent s) target) as [c body|e].
  - destruct (Z.eqb_spec c 200); [|done]. by destruct body.
  - by destruct e.
Qed.

Lemma X12_fetch_sth_soft_failure_witness :
  session_outcome (Responds 404 Malformed)
  ∧ fetch_sth world_unavailable "https://ct.googleapis.com/aviator" (initial_state [])
    = (Raises TypeError,
       after_get "https://ct.googleapis.com/aviator/ct/v1/get-sth" (initial_state [])).
Proof.
  assert (session_outcome (Responds 404 Malformed)) as Hstatus.
  { apply (bool_decide_unpack _). by vm_compute. }
  split; [exact Hstatus|].
  apply (X12_fetch_sth_soft_failure world_unavailable "https://ct.googleapis.com/aviator"
           (initial_state [])).
  exact Hstatus.
Defined.

Lemma fetch_certificate_batch_sends (w : world) (url : string) (a b : Z)
    (s : state) (o : outcome json) (s' : state) :
  fetch_certificate_batch w url a b s = (o, s') →
  (requests_sent s < requests_sent s' ≤ requests_sent s + 2)%nat.
Proof.
  intros Hrun. unfold fetch_certificate_batch in Hrun.
  unfold mbind at 1, prog_bind at 1 in Hrun.
  match type of Hrun with
  | context [make_https_request w ?target s] =>
      destruct (make_https_request_trichotomy w target s) as [(body & _ & E)|[E|E]];
      rewrite E in Hrun
  end.
  - unfold mbind, prog_bind, lift in Hrun. simpl in Hrun.
    destruct body as [j|]; simpl in Hrun; injection Hrun as <- <-; simpl; lia.
  - unfold mbind at 1, prog_bind at 1 in Hrun.
    unfold mbind at 1, prog_bind at 1 in Hrun. unfold emit at 1 in Hrun.
    match type of Hrun with
    | context [make_https_request w ?target ?s1] =>
        destruct (make_https_request_trichotomy w target s1) as [(body & _ & E2)|[E2|E2]];
        rewrite E2 in Hrun
    end.
    + unfold lift in Hrun.
      destruct body as [j|]; simpl in Hrun; injection Hrun as <- <-; simpl; lia.
    + unfold mbind, prog_bind, emit, exit in Hrun. simpl in Hrun.
      injection Hrun as <- <-. simpl. lia.
    + injection Hrun as <- <-. simpl. lia.
  - injection Hrun as <- <-. simpl. lia.
Qed.

(** ** The loops of [main] *)

Lemma bind_Returns_inv {A B} (m : prog A) (f : A → prog B) (s s' : state) (b : B) :
  (m ≫= f) s = (Returns b, s') →
  ∃ a s1, m s = (Returns a, s1) ∧ f a s1 = (Returns b, s').
Proof.
  unfold mbind, prog_bind. destruct (m s) as [[a|e|c|] s1]; try discriminate.
  intros Hf. by exists a, s1.
Qed.

Section LoopCases.
Context `{!Externals} (w : world).
Context (args : arguments) (source url save_location download_method save_type_ : string).

Lemma main_for_body_Returns_inv (e : entry) (i j : Z) (s s' : state) :
  main_for_body w args source save_location download_method save_type_ e i s
  = (Returns j, s') →
  j = i + 1.
Proof.
  unfold main_for_body. intros Hrun.
  apply bind_Returns_inv in Hrun as (selected & s1 & _ & Hrun).
  destruct selected as [[der_cert cert_type]|]; [|by inversion Hrun].
  destruct (parse_data der_cert source) as [cert|]; [|by inversion Hrun].
  apply bind_Returns_inv in Hrun as (? & s2 & _ & Hrun). by inversion Hrun.
Qed.

Lemma main_for_Returns_inv (entries : list entry) (i j : Z) (s s' : state) :
  main_for w args source save_location download_method save_type_ entries i s
  = (Returns j, s') →
  j = i + Z.of_nat (length entries).
Proof.
  revert i s. induction entries as [|e entries IH]; intros i s Hrun.
  - inversion Hrun. simpl. lia.
  - simpl in Hrun. apply bind_Returns_inv in Hrun as (i1 & s1 & Hbody & Hrun).
    apply main_for_body_Returns_inv in Hbody as ->.
    apply IH in Hrun as ->. simpl. lia.
Qed.

(** X13: a batch is processed entry by entry until one raises.  When
    [main_for] returns, the cursor has advanced by the number of entries
    of the batch, and no request was sent meanwhile.  When an entry makes
    the decoder raise after entries that do not, the entries before it
    have been processed and stay so, the exception ends the batch there,
    and the entries after it are not looked at. *)
Theorem X13_main_for_progress (entries : list entry) (i : Z) (s : state) :
  (∀ j s',
     main_for w args source save_location download_method save_type_ entries i s
     = (Returns j, s') →
     j = i + Z.of_nat (length entries) ∧ sends_nothing s s')
  ∧ (∀ before e after x,
       entries = before ++ e :: after →
       Forall (λ e, is_Ok (main_select_der (include_precerts args) e)) before →
       main_select_der (include_precerts args) e = Raise x →
       ∃ s1,
         main_for w args source save_location download_method save_type_ before i s
         = (Returns (i + Z.of_nat (length before)), s1)
         ∧ main_for w args source save_location download_method save_type_ entries i s
           = (Raises x, s1)).
Proof.
  split.
  - intros j s' Hrun. split; [by apply main_for_Returns_inv in Hrun|].
    by apply (main_for_sends_nothing w args source save_location download_method
                save_type_ entries i s (Returns j) s').
  - intros before e after x -> Hbefore Hraise. revert i s.
    induction Hbefore as [|e0 before He0 _ IH]; intros i s.
    + exists s. split; [simpl; rewrite Z.add_0_r; reflexivity|].
      simpl. unfold mbind, prog_bind.
      by rewrite (main_for_body_raises w args source save_location download_method
                    save_type_ e i x s Hraise).
    + destruct (main_for_body_returns w args source save_location download_method
                  save_type_ e0 i He0 s) as (i1 & s0 & Ebody & ->).
      destruct (IH (i + 1) s0) as (s1 & Ebefore & Eall).
      exists s1. split.
      * replace (i + Z.of_nat (length (e0 :: before)))
          with (i + 1 + Z.of_nat (length before)) by (simpl; lia).
        simpl. unfold mbind, prog_bind. by rewrite Ebody.
      * simpl. unfold mbind at 1, prog_bind at 1. rewrite Ebody. exact Eall.
Qed.

Lemma main_while_Returns_inv (fuel : nat) (tree_size current_index j : Z) (s s' : state) :
  main_while w fuel args source url save_location download_method save_type_
    tree_size current_index s
  = (Returns j, s') →
  tree_size ≤ j ∧ current_index ≤ j
  ∧ (requests_sent s ≤ requests_sent s')%nat
  ∧ (current_index < tree_size → (requests_sent s < requests_sent s')%nat).
Proof.
  revert current_index s. induction fuel as [|fuel IH]; intros current_index s Hrun.
  - simpl in Hrun. destruct (Z.ltb_spec current_index tree_size); [done|].
    inversion Hrun; subst. lia.
  - simpl in Hrun. destruct (Z.ltb_spec current_index tree_size) as [Hlt|Hge].
    + apply bind_Returns_inv in Hrun as (certs & s1 & Hfetch & Hrun).
      apply bind_Returns_inv in Hrun as (es & s2 & Hes & Hrun).
      apply bind_Returns_inv in Hrun as (i1 & s3 & Hfor & Hrun).
      pose proof (fetch_certificate_batch_sends w _ _ _ _ _ _ Hfetch) as Hsent.
      unfold lift in Hes. destruct (get_entries certs); [|done].
      injection Hes as <- <-.
      pose proof (main_for_sends_nothing w args source save_location download_method
                    save_type_ _ _ _ _ _ Hfor) as [Hsame _].
      apply main_for_Returns_inv in Hfor as ->.
      apply IH in Hrun as (Ht & Hi & Hr & _). lia.
    + inversion Hrun; subst. lia.
Qed.
End LoopCases.

Lemma X13_main_for_progress_witness :
  ∃ s1,
    @main_for example_externals world_exact_window (example_args 0) "aviator"
      "/mnt/workspace/" "dbOnly" "PEM" [entry_x509; entry_mismatch] 0 (initial_state [])
    = (Returns (0 + Z.of_nat 2), s1)
    ∧ @main_for example_externals world_exact_window (example_args 0) "aviator"
        "/mnt/workspace/" "dbOnly" "PEM"
        [entry_x509; entry_mismatch; entry_empty_leaf; entry_x509] 0 (initial_state [])
      = (Raises IndexError, s1).
Proof.
  destruct (@X13_main_for_progress example_externals world_exact_window (example_args 0)
              "aviator" "/mnt/workspace/" "dbOnly" "PEM"
              [entry_x509; entry_mismatch; entry_empty_leaf; entry_x509] 0
              (initial_state [])) as [_ Hraise].
  apply (Hraise [entry_x509; entry_mismatch] entry_empty_leaf [entry_x509] IndexError
           eq_refl).
  - apply (bool_decide_unpack _). by vm_compute.
  - reflexivity.
Defined.

Section WhileCases.
Context `{!Externals} (w : world).
Context (args : arguments) (source url save_location download_method save_type_ : string).

(** X14: how the [while] loop ends.  With the cursor already at or past
    [tree_size] the loop returns at once, sending no request and leaving
    the state as it is.  Whenever the loop returns, the cursor is at
    least [tree_size] and never below where it started; it can be past
    [tree_size], when the log returns more entries than were left; and
    a loop that started below [tree_size] has sent at least one
    request. *)
Theorem X14_main_while_exit (fuel : nat) (tree_size current_index : Z) (s : state) :
  (tree_size ≤ current_index →
     main_while w fuel args source url save_location download_method save_type_
       tree_size current_index s
     = (Returns current_index, s))
  ∧ (∀ j s',
       main_while w fuel args source url save_location download_method save_type_
         tree_size current_index s
       = (Returns j, s') →
       tree_size ≤ j ∧ current_index ≤ j
       ∧ (current_index < tree_size → (requests_sent s < requests_sent s')%nat)).
Proof.
  split.
  - intros Hge. destruct fuel; simpl;
      destruct (Z.ltb_spec current_index tree_size); (lia || reflexivity).
  - intros j s' Hrun.
    apply main_while_Returns_inv in Hrun as (Ht & Hi & _ & Hsent). auto.
Qed.

(** X15: empty batches never end the loop.  When the log answers every
    request with an empty list of entries and the cursor is below
    [tree_size], the cursor never moves: each round sends the request
    for the same window again, at once, without any sleep, and the loop
    only stops when the rounds allowed to it are used up, whatever their
    number. *)
Theorem X15_empty_batches_never_end (fuel : nat) (tree_size current_index : Z)
    (s : state) :
  (∀ k target, session_get w k target = Responds 200 (Document (JsonEntries []))) →
  current_index < tree_size →
  ∃ s',
    main_while w fuel args source url save_location download_method save_type_
      tree_size current_index s
    = (OutOfFuel, s')
    ∧ trace s'
      = trace s
        ++ replicate fuel
             (Get (entries_url url current_index
                     (Z.min (current_index + 256) tree_size)))
    ∧ ct_collection s' = ct_collection s.
Proof.
  intros Hempty Hlt. revert s. induction fuel as [|fuel IH]; intros s.
  - exists s. simpl. destruct (Z.ltb_spec current_index tree_size); [|lia].
    by rewrite app_nil_r.
  - simpl. destruct (Z.ltb_spec current_index tree_size); [|lia].
    assert ((if current_index + 256 >? tree_size then tree_size
             else current_index + 256)
            = Z.min (current_index + 256) tree_size) as ->.
    { destruct (current_index + 256 >? tree_size) eqn:E.
      - apply Z.gtb_lt in E. lia.
      - rewrite Z.gtb_ltb in E. apply Z.ltb_ge in E. lia. }
    unfold mbind at 1, prog_bind at 1.
    rewrite (fetch_certificate_batch_200 w ("https://" +:+ url) current_index
               (Z.min (current_index + 256) tree_size) (JsonEntries []) s (Hempty _ _)).
    fold (entries_url url current_index (Z.min (current_index + 256) tree_size)).
    unfold mbind, prog_bind. simpl lift. cbv iota beta. simpl main_for.
    unfold mret, prog_ret.
    destruct (IH (after_get (entries_url url current_index
                               (Z.min (current_index + 256) tree_size)) s))
      as (s' & Erun & Htrace & Hstore).
    exists s'. split; [exact Erun|]. split; [|exact Hstore].
    rewrite Htrace. simpl. by rewrite <- app_assoc.
Qed.
End WhileCases.

Lemma X14_main_while_exit_witness :
  ∃ s', example_run world_overshoot 2 = (Returns 514, s') ∧ 300 ≤ 514 ∧ 0 ≤ 514.
Proof.
  destruct (@X14_main_while_exit example_externals world_overshoot (example_args 0)
              "aviator" "ct.googleapis.com/aviator" "/mnt/workspace/" "dbOnly" "PEM"
              2 300 0 (initial_state [])) as [_ Hexit].
  assert (fst (example_run world_overshoot 2) = Returns 514) as Hfst by by vm_compute.
  exists (snd (example_run world_overshoot 2)).
  assert (example_run world_overshoot 2
          = (Returns 514, snd (example_run world_overshoot 2))) as Hrun.
  { rewrite <- Hfst. apply surjective_pairing. }
  split; [exact Hrun|].
  destruct (Hexit 514 _ Hrun) as (Ht & Hi & _). split; [exact Ht|exact Hi].
Defined.

Lemma X15_empty_batches_never_end_witness :
  ∃ s',
    @main_while example_externals world_no_entries 3 (example_args 0) "aviator"
      "ct.googleapis.com/aviator" "/mnt/workspace/" "dbOnly" "PEM" 300 0
      (initial_state [])
    = (OutOfFuel, s')
    ∧ trace s'
      = trace (initial_state [])
        ++ replicate 3
             (Get (entries_url "ct.googleapis.com/aviator" 0 (Z.min (0 + 256) 300)))
    ∧ ct_collection s' = ct_collection (initial_state []).
Proof.
  apply (@X15_empty_batches_never_end example_externals world_no_entries (example_args 0)
           "aviator" "ct.googleapis.com/aviator" "/mnt/workspace/" "dbOnly" "PEM"
           3 300 0 (initial_state [])).
  - reflexivity.
  - lia.
Defined.

(** ** What one entry does to the store *)

Section EntryEffects.
Context `{!Externals} (w : world).
Context (args : arguments) (source save_location download_method save_type_ : string).

(** X16: entries that are not persisted leave no mark.  An entry skipped
    by the decoder's outcome, an entry the parser rejects, and a
    certificate that names no tracked organization and no tracked zone
    only advance the cursor: the store, the recorded events and the
    clock are untouched. *)
Theorem X16_entry_not_persisted (e : entry) (i : Z) (s : state)
    (selected : option (option (list byte) * Z)) :
  main_select_der (include_precerts args) e = Ok selected →
  match selected with
  | None => True
  | Some (der_cert, cert_type) =>
      match parse_data der_cert source with
      | None => True
      | Some cert =>
          let labelled :=
            with_ct_log_type cert
              (if cert_type =? 1 then "PRE-CERTIFICATE" else "CERTIFICATE") in
          check_org_relevancy labelled (SSL_Orgs w) = false
          ∧ check_zone_relevancy labelled (distinct_zones w) = []
      end
  end →
  main_for_body w args source save_location download_method save_type_ e i s
  = (Returns (i + 1), s).
Proof.
  intros Hsel Hirrelevant. unfold main_for_body. rewrite Hsel.
  unfold mbind at 1, prog_bind at 1. simpl lift. cbv iota beta.
  destruct selected as [[der_cert cert_type]|]; [|reflexivity].
  destruct (parse_data der_cert source) as [cert|]; [|reflexivity].
  cbv zeta in Hirrelevant. destruct Hirrelevant as [Horg Hzones].
  cbv zeta. rewrite Horg, Hzones. reflexivity.
Qed.

End EntryEffects.

Lemma X16_entry_not_persisted_witness :
  @main_for_body example_externals world_untracked (example_args 0) "aviator"
    "/mnt/workspace/" "dbAndSave" "PEM" entry_x509 7 (initial_state example_store)
  = (Returns (7 + 1), initial_state example_store).
Proof.
  apply (@X16_entry_not_persisted example_externals world_untracked (example_args 0)
           "aviator" "/mnt/workspace/" "dbAndSave" "PEM" entry_x509 7
           (initial_state example_store) (Some (Some [x30; x00; x00], 0))).
  - reflexivity.
  - by vm_compute.
Defined.


(** ** The job markers of a run *)

Lemma ensures_bind {A B} (m : prog A) (f : A → prog B)
    (Q1 Q2 Q : state → ending → state → Prop) :
  ensures m Q1 →
  (∀ a, ensures (f a) Q2) →
  (∀ s e s1, e ≠ Returned → Q1 s e s1 → Q s e s1) →
  (∀ s s1 e s', Q1 s Returned s1 → Q2 s1 e s' → Q s e s') →
  ensures (m ≫= f) Q.
Proof.
  intros Hm Hf Hfail Hseq s o s' Hrun. unfold mbind, prog_bind in Hrun.
  destruct (m s) as [[a|e|c|] s1] eqn:E; specialize (Hm _ _ _ E); simpl in Hm.
  - eapply Hseq; [exact Hm|]. by apply (Hf a).
  - injection Hrun as <- <-. by apply Hfail.
  - injection Hrun as <- <-. by apply Hfail.
  - injection Hrun as <- <-. by apply Hfail.
Qed.


#[local] Instance quietly_preorder : PreOrder quietly.
Proof.
  split.
  - intros s. exists []. by rewrite app_nil_r.
  - intros s1 s2 s3 (t1 & E1 & H1) (t2 & E2 & H2). exists (t1 ++ t2).
    split; [by rewrite E2, E1, app_assoc|by apply Forall_app].
Qed.











Section RunMarkers.
Context `{!Externals} (w : world).






End RunMarkers.

Lemma exits_recorded_bind {A B} (m : prog A) (f : A → prog B) :
  ensures m exits_recorded →
  (∀ a, ensures (f a) exits_recorded) →
  ensures (m ≫= f) exits_recorded.
Proof.
  intros Hm Hf. by apply (ensures_bind m f exits_recorded exits_recorded).
Qed.

Lemma exits_recorded_ret {A} (a : A) : ensures (mret a) exits_recorded.
Proof. intros s o s' [= <- <-] c Hc. discriminate. Qed.

Lemma exits_recorded_lift {A} (r : result A) : ensures (lift r) exits_recorded.
Proof. intros s o s' Hrun c Hc. destruct r; injection Hrun as <- <-; discriminate. Qed.

Lemma exits_recorded_out_of_fuel {A} : ensures (@out_of_fuel A) exits_recorded.
Proof. intros s o s' [= <- <-] c Hc. discriminate. Qed.

Lemma exits_recorded_emit (ev : event) : ensures (emit ev) exits_recorded.
Proof. intros s o s' [= <- <-] c Hc. discriminate. Qed.

Lemma exits_recorded_get_collection : ensures get_collection exits_recorded.
Proof. intros s o s' [= <- <-] c Hc. discriminate. Qed.

Lemma exits_recorded_put_collection (c : list certificate) :
  ensures (put_collection c) exits_recorded.
Proof. intros s o s' [= <- <-] c' Hc. discriminate. Qed.

Lemma exits_recorded_read_clock (w : world) : ensures (read_clock w) exits_recorded.
Proof. intros s o s' [= <- <-] c Hc. discriminate. Qed.

Lemma exits_recorded_session_get_call (w : world) (url : string) :
  ensures (session_get_call w url) exits_recorded.
Proof. intros s o s' [= <- <-] c Hc. discriminate. Qed.

Lemma exits_recorded_job_error {A} :
  ensures (emit RecordJobError;; @exit A 1) exits_recorded.
Proof.
  intros s o s' [= <- <-] c [= <-]. split; [done|]. simpl. apply last_snoc.
Qed.

Ltac exits_checked :=
  repeat first
    [ apply exits_recorded_job_error
    | apply exits_recorded_ret
    | apply exits_recorded_lift
    | apply exits_recorded_out_of_fuel
    | apply exits_recorded_emit
    | apply exits_recorded_get_collection
    | apply exits_recorded_put_collection
    | apply exits_recorded_read_clock
    | apply exits_recorded_session_get_call
    | apply exits_recorded_bind; [ | intros ?]
    | match goal with
      | |- ensures (match ?x with _ => _ end) _ => destruct x
      end ].

Lemma make_https_request_rec_exits_recorded (w : world) (depth : nat) (url : string)
    (timeout_attempt : Z) :
  ensures (make_https_request_rec w depth url timeout_attempt) exits_recorded.
Proof.
  revert timeout_attempt. induction depth as [|depth IH]; intros timeout_attempt; simpl.
  - exits_checked.
  - unfold try_get. exits_checked. apply IH.
Qed.

Lemma fetch_certificate_batch_exits_recorded (w : world) (url : string) (a b : Z) :
  ensures (fetch_certificate_batch w url a b) exits_recorded.
Proof.
  unfold fetch_certificate_batch, make_https_request.
  apply exits_recorded_bind; [apply make_https_request_rec_exits_recorded|]. intros r1.
  apply exits_recorded_bind; [|intros r2; exits_checked].
  destruct r1; [exits_checked|].
  apply exits_recorded_bind; [exits_checked|]. intros _.
  apply make_https_request_rec_exits_recorded.
Qed.

Lemma find_count_main_sweep (utcnow : Z) (c : list certificate) :
  find_count (expiration_query utcnow) (main_sweep utcnow c) = 0%nat.
Proof.
  unfold main_sweep, update_many, find_count.
  induction c as [|d c IH]; simpl; [done|].
  destruct (expiration_query utcnow d) eqn:E.
  - rewrite expiration_query_expired by done. exact IH.
  - rewrite E. exact IH.
Qed.

Section RunEndings.
Context `{!Externals} (w : world).

Lemma main_for_body_exits_recorded (args : arguments) (source save_location
    download_method save_type_ : string) (e : entry) (i : Z) :
  ensures (main_for_body w args source save_location download_method save_type_ e i)
    exits_recorded.
Proof. unfold main_for_body. exits_checked. Qed.

Lemma main_for_exits_recorded (args : arguments) (source save_location
    download_method save_type_ : string) (entries : list entry) (i : Z) :
  ensures (main_for w args source save_location download_method save_type_ entries i)
    exits_recorded.
Proof.
  revert i. induction entries as [|e entries IH]; intros i; simpl.
  - exits_checked.
  - apply exits_recorded_bind; [apply main_for_body_exits_recorded|done].
Qed.

Lemma main_while_exits_recorded (args : arguments) (source url save_location
    download_method save_type_ : string) (fuel : nat) (tree_size current_index : Z) :
  ensures
    (main_while w fuel args source url save_location download_method save_type_
       tree_size current_index)
    exits_recorded.
Proof.
  revert current_index. induction fuel as [|fuel IH]; intros current_index; simpl.
  - exits_checked.
  - destruct (current_index <? tree_size); [|exits_checked].
    apply exits_recorded_bind; [apply fetch_certificate_batch_exits_recorded|].
    intros certs. apply exits_recorded_bind; [exits_checked|]. intros entries.
    apply exits_recorded_bind; [apply main_for_exits_recorded|]. intros i. apply IH.
Qed.

(** The exits of the run from line 418 on, for a known log source *)
Lemma main_exits_recorded (fuel : nat) (args : arguments) (s : state)
    (url : string) (code : Z) (s' : state) :
  CT_LOG_MAP !! log_source args = Some url →
  main w fuel args s = (Exits code, s') →
  code = 1 ∧ list.last (trace s') = Some RecordJobError.
Proof.
  intros Hknown Hrun. unfold main in Hrun. cbv zeta in Hrun. rewrite Hknown in Hrun.
  match type of Hrun with
  | ?m s = _ => assert (ensures m exits_recorded) as Hens
  end.
  { apply exits_recorded_bind; [exits_checked|]. intros ct_log_map.
    apply exits_recorded_bind; [exits_checked|]. intros method.
    apply exits_recorded_bind; [exits_checked|]. intros _.
    apply exits_recorded_bind; [exits_checked|]. intros collection.
    apply exits_recorded_bind.
    { unfold fetch_sth, make_https_request.
      apply exits_recorded_bind; [apply make_https_request_rec_exits_recorded|].
      intros r. exits_checked. }
    intros sth_data.
    apply exits_recorded_bind; [exits_checked|]. intros tree_size.
    apply exits_recorded_bind; [exits_checked|]. intros i.
    apply exits_recorded_bind; [apply main_while_exits_recorded|]. intros _.
    exits_checked. }
  exact (Hens _ _ _ Hrun code eq_refl).
Qed.

(** X19: the exits of a run of the whole script.  An exit before the
    job has started records nothing and leaves the state as it was: the
    status is 1 when [MongoConnector()] finds no configuration file and
    when the log source is not in [CT_LOG_MAP], 0 for the help and 2 for
    a command line that [parse_args] rejects.  Every exit after the job
    has started has the status 1 and the job error as its last
    record. *)
Theorem X19_exits_record_job_error (fuel : nat) (st : startup) (s : state)
    (code : Z) (s' : state) :
  main_script w fuel st s = (Exits code, s') →
  match st with
  | NoConfigFile => code = 1 ∧ s' = s
  | StartupRaises _ => False
  | HelpRequested => code = 0 ∧ s' = s
  | UsageError => code = 2 ∧ s' = s
  | Parsed args =>
      if choices_accepted args
      then match CT_LOG_MAP !! log_source args with
           | None => code = 1 ∧ s' = s
           | Some _ => code = 1 ∧ list.last (trace s') = Some RecordJobError
           end
      else code = 2 ∧ s' = s
  end.
Proof.
  destruct st as [|x| | |args]; unfold main_script; try by intros [= <- <-].
  destruct (choices_accepted args); [|by intros [= <- <-]].
  destruct (CT_LOG_MAP !! log_source args) as [url|] eqn:Hmap.
  - by apply (main_exits_recorded fuel args s url).
  - unfold main. cbv zeta. rewrite Hmap. by intros [= <- <-].
Qed.

(** X20: what a completed run leaves in the store.  When [main] returns,
    the store has just been swept: no record is both due and unexpired
    at the time of the sweep. *)
Theorem X20_completed_run_is_swept (fuel : nat) (args : arguments) (s s' : state) :
  main w fuel args s = (Returns (), s') →
  ∃ collection,
    ct_collection s' = main_sweep (datetime_utcnow w) collection
    ∧ find_count (expiration_query (datetime_utcnow w)) (ct_collection s') = 0%nat.
Proof.
  intros Hrun. unfold main in Hrun. cbv zeta in Hrun.
  do 8 (apply bind_Returns_inv in Hrun as (? & ? & _ & Hrun)).
  unfold mbind, prog_bind, get_collection, put_collection, emit in Hrun.
  injection Hrun as <-. simpl. eexists. split; [reflexivity|].
  apply find_count_main_sweep.
Qed.
End RunEndings.


Lemma X19_exits_record_job_error_witness :
  (∃ s',
     @main_script example_externals world_connection_lost 2 (Parsed (example_args 0))
       (initial_state [])
     = (Exits 1, s')
     ∧ list.last (trace s') = Some RecordJobError)
  ∧ @main_script example_externals world_connection_lost 2 UsageError (initial_state [])
    = (Exits 2, initial_state [])
  ∧ (2 = 2 ∧ initial_state [] = initial_state []).
Proof.
  split.
  - assert ((@main_script example_externals world_connection_lost 2
               (Parsed (example_args 0)) (initial_state [])).1 = Exits 1)
      as Hfst by by vm_compute.
    exists (@main_script example_externals world_connection_lost 2
              (Parsed (example_args 0)) (initial_state [])).2.
    assert (@main_script example_externals world_connection_lost 2
              (Parsed (example_args 0)) (initial_state [])
            = (Exits 1,
               (@main_script example_externals world_connection_lost 2
                  (Parsed (example_args 0)) (initial_state [])).2)) as Hrun.
    { rewrite <- Hfst. apply surjective_pairing. }
    split; [exact Hrun|].
    exact (proj2 (@X19_exits_record_job_error example_externals world_connection_lost 2
                    (Parsed (example_args 0)) (initial_state []) 1 _ Hrun)).
  - split; [reflexivity|].
    exact (@X19_exits_record_job_error example_externals world_connection_lost 2
             UsageError (initial_state []) 2 (initial_state []) eq_refl).
Defined.

Lemma X20_completed_run_is_swept_witness :
  ∃ collection,
    ct_collection (@main example_externals world_two_entries 2 (example_args 0)
                     (initial_state example_store)).2
    = main_sweep 5000 collection
    ∧ find_count (expiration_query 5000)
        (ct_collection (@main example_externals world_two_entries 2 (example_args 0)
                          (initial_state example_store)).2)
      = 0%nat.
Proof.
  assert ((@main example_externals world_two_entries 2 (example_args 0)
             (initial_state example_store)).1 = Returns ()) as Hfst by by vm_compute.
  apply (@X20_completed_run_is_swept example_externals world_two_entries 2
           (example_args 0) (initial_state example_store)).
  rewrite <- Hfst. apply surjective_pairing.
Defined.

(** ** The retries of the MongoDB connector *)

Section ConnectorProperties.
Context {Collection Query Projection Answer : Type}.
Context (driver : nat → @driver_call Collection Query Projection
                  → @driver_answer Answer).
Context (c : @driver_call Collection Query Projection).

Lemma seconds_slept_dropped_attempts (k : nat) :
  seconds_slept (dropped_attempts k c) = 5 * Z.of_nat k.
Proof. induction k as [|k IH]; simpl in *; [done|]. rewrite IH. lia. Qed.

Lemma seconds_slept_app (t1 t2 : list (@connector_event Collection Query Projection)) :
  seconds_slept (t1 ++ t2) = seconds_slept t1 + seconds_slept t2.
Proof.
  induction t1 as [|ev t1 IH]; simpl; [done|].
  unfold seconds_slept in *. simpl. destruct ev; rewrite IH; lia.
Qed.

Lemma retry_loop_drops (k fuel : nat) (t : Z) (s : connector_state) :
  0 ≤ t → t + Z.of_nat k ≤ 5 →
  (∀ i, (i < k)%nat → driver (driver_calls s + i) c = AutoReconnect) →
  retry_loop driver (k + fuel) c t s
  = retry_loop driver fuel c (t + Z.of_nat k)
      {| driver_calls := driver_calls s + k;
         connector_trace := connector_trace s ++ dropped_attempts k c |}.
Proof.
  revert t s. induction k as [|k IH]; intros t s Ht Hk Hdrops.
  - simpl. rewrite Z.add_0_r. f_equal. destruct s as [n tr]. simpl.
    f_equal; [lia|by rewrite app_nil_r].
  - cbn [Nat.add retry_loop].
    assert (driver (driver_calls s) c = AutoReconnect) as ->.
    { rewrite <- (Nat.add_0_r (driver_calls s)). apply Hdrops. lia. }
    destruct (Z.ltb_spec t 5); [|lia].
    rewrite IH; [|lia|lia|].
    + f_equal; [lia|]. simpl. f_equal; [lia|].
      rewrite <- !app_assoc. reflexivity.
    + intros i Hi. simpl.
      replace (S (driver_calls s + i)) with (driver_calls s + S i)%nat by lia.
      apply Hdrops. lia.
Qed.

(** X21: a call that goes through after dropped connections.  When the
    first [k] attempts of a wrapped call, [k ≤ 5], raise [AutoReconnect]
    and the next one answers, the wrapper returns that answer after
    [k + 1] calls of the driver and [k] sleeps of 5 seconds, one before
    each new attempt. *)
Theorem X21_retry_until_answered (k fuel : nat) (s : connector_state) (r : Answer) :
  (k ≤ 5)%nat →
  (k < fuel)%nat →
  (∀ i, (i < k)%nat → driver (driver_calls s + i) c = AutoReconnect) →
  driver (driver_calls s + k) c = Answered r →
  retry_loop driver fuel c 0 s
  = (Got r,
     {| driver_calls := driver_calls s + k + 1;
        connector_trace := connector_trace s ++ dropped_attempts k c ++ [Called c] |})
  ∧ seconds_slept (dropped_attempts k c ++ [Called c]) = 5 * Z.of_nat k.
Proof.
  intros Hk Hfuel Hdrops Hanswer. split.
  - replace fuel with (k + S (fuel - S k))%nat by lia.
    rewrite retry_loop_drops by (done || lia).
    cbn [retry_loop driver_calls]. rewrite Hanswer. unfold after_call. simpl.
    f_equal. f_equal; [lia|by rewrite <- app_assoc].
  - rewrite seconds_slept_app, seconds_slept_dropped_attempts. simpl. lia.
Qed.

(** X22: a call that is given up.  When six attempts in a row raise
    [AutoReconnect], the wrapper exits with status 1 after exactly six
    calls of the driver and five sleeps, 25 seconds in all; there is no
    seventh call. *)
Theorem X22_retry_gives_up (fuel : nat) (s : connector_state) :
  (6 ≤ fuel)%nat →
  (∀ i, (i ≤ 5)%nat → driver (driver_calls s + i) c = AutoReconnect) →
  retry_loop driver fuel c 0 s
  = (GaveUp 1,
     {| driver_calls := driver_calls s + 6;
        connector_trace := connector_trace s ++ dropped_attempts 5 c ++ [Called c] |})
  ∧ seconds_slept (dropped_attempts 5 c ++ [Called c]) = 25.
Proof.
  intros Hfuel Hdrops. split.
  - replace fuel with (5 + S (fuel - 6))%nat by lia.
    rewrite retry_loop_drops; [|lia|lia|intros i Hi; apply Hdrops; lia].
    cbn [retry_loop driver_calls]. rewrite (Hdrops 5%nat) by lia.
    change (0 + Z.of_nat 5 <? 5) with false. cbv iota. unfold after_call. simpl.
    f_equal. f_equal; [lia|by rewrite <- !app_assoc].
  - rewrite seconds_slept_app, seconds_slept_dropped_attempts. simpl. lia.
Qed.

Lemma retry_loop_bounded (r : nat) :
  ∀ (t : Z) (fuel : nat) (s : connector_state),
    t = 5 - Z.of_nat r → (r < fuel)%nat →
    ∃ k o,
      (k ≤ r)%nat
      ∧ retry_loop driver fuel c t s
        = (o, {| driver_calls := driver_calls s + k + 1;
                 connector_trace := connector_trace s ++ dropped_attempts k c
                                    ++ [Called c] |})
      ∧ o ≠ OutOfRounds
      ∧ (∀ i, (i < k)%nat → driver (driver_calls s + i) c = AutoReconnect)
      ∧ match driver (driver_calls s + k) c with
        | Answered a => o = Got a
        | AutoReconnect => o = GaveUp 1 ∧ k = r
        | OtherFailure => o = Failed
        end.
Proof.
  induction r as [|r IH]; intros t fuel s Ht Hfuel.
  - destruct fuel as [|fuel]; [lia|]. exists 0%nat. cbn [retry_loop].
    rewrite Nat.add_0_r. simpl dropped_attempts.
    destruct (driver (driver_calls s) c) as [a| |] eqn:E.
    + exists (Got a). split; [done|]. split; [unfold after_call; do 2 f_equal; lia|].
      split; [done|]. split; [lia|done].
    + destruct (Z.ltb_spec t 5); [lia|].
      exists (GaveUp 1). split; [done|]. split; [unfold after_call; do 2 f_equal; lia|].
      split; [done|]. split; [lia|done].
    + exists Failed. split; [done|]. split; [unfold after_call; do 2 f_equal; lia|].
      split; [done|]. split; [lia|done].
  - destruct fuel as [|fuel]; [lia|]. cbn [retry_loop].
    destruct (driver (driver_calls s) c) as [a| |] eqn:E.
    + exists 0%nat, (Got a). rewrite Nat.add_0_r, E. split; [lia|].
      split; [unfold after_call; simpl; do 2 f_equal; lia|].
      split; [done|]. split; [lia|done].
    + destruct (Z.ltb_spec t 5); [|lia].
      destruct (IH (t + 1) fuel (after_sleep 5 (after_call c s)) ltac:(lia) ltac:(lia))
        as (k & o & Hk & Erun & Ho & Hdrops & Hlast).
      exists (S k), o. split; [lia|]. split.
      { rewrite Erun. f_equal. simpl. f_equal; [lia|].
        rewrite <- !app_assoc. reflexivity. }
      split; [done|]. split.
      { intros i Hi. destruct i as [|i]; [by rewrite Nat.add_0_r|].
        replace (driver_calls s + S i)%nat
          with (driver_calls (after_sleep 5 (after_call c s)) + i)%nat
          by (simpl; lia).
        apply Hdrops. lia. }
      replace (driver_calls s + S k)%nat
        with (driver_calls (after_sleep 5 (after_call c s)) + k)%nat by (simpl; lia).
      destruct (driver (driver_calls (after_sleep 5 (after_call c s)) + k) c);
        [done| |done].
      destruct Hlast as [Hgave Hkr]. split; [done|lia].
    + exists 0%nat, Failed. rewrite Nat.add_0_r, E. split; [lia|].
      split; [unfold after_call; simpl; do 2 f_equal; lia|].
      split; [done|]. split; [lia|done].
Qed.

(** X23: the wrappers are bounded.  Whatever the driver does, six
    rounds are enough for a wrapped call to end: the driver is called at
    most six times, with a sleep of 5 seconds between two calls and none
    after the last; every attempt but the last raised [AutoReconnect];
    the last one decides the ending: its answer is returned, any other
    exception is not retried, and a sixth dropped connection makes the
    wrapper exit with status 1. *)
Theorem X23_retry_is_bounded (fuel : nat) (s : connector_state) :
  (6 ≤ fuel)%nat →
  ∃ k o,
    (k ≤ 5)%nat
    ∧ retry_loop driver fuel c 0 s
      = (o, {| driver_calls := driver_calls s + k + 1;
               connector_trace := connector_trace s ++ dropped_attempts k c
                                  ++ [Called c] |})
    ∧ o ≠ OutOfRounds
    ∧ seconds_slept (dropped_attempts k c ++ [Called c]) ≤ 25
    ∧ (∀ i, (i < k)%nat → driver (driver_calls s + i) c = AutoReconnect)
    ∧ match driver (driver_calls s + k) c with
      | Answered a => o = Got a
      | AutoReconnect => o = GaveUp 1 ∧ k = 5%nat
      | OtherFailure => o = Failed
      end.
Proof.
  intros Hfuel.
  destruct (retry_loop_bounded 5 0 fuel s ltac:(lia) ltac:(lia))
    as (k & o & Hk & Erun & Ho & Hdrops & Hlast).
  exists k, o. split; [done|]. split; [done|]. split; [done|].
  split; [|done].
  rewrite seconds_slept_app, seconds_slept_dropped_attempts. simpl. lia.
Qed.
End ConnectorProperties.

Lemma X21_retry_until_answered_witness :
  perform_count (flaky_driver 3) 10 "ct_certs" "{}" connector_start
  = (Got 42,
     {| driver_calls := 0 + 3 + 1;
        connector_trace :=
          [] ++ dropped_attempts 3 (CountDocuments "ct_certs" "{}")
             ++ [Called (CountDocuments "ct_certs" "{}")] |})
  ∧ seconds_slept (dropped_attempts 3 (CountDocuments (Projection := string) "ct_certs" "{}")
                   ++ [Called (CountDocuments "ct_certs" "{}")])
    = 5 * Z.of_nat 3.
Proof.
  apply (X21_retry_until_answered (flaky_driver 3) (CountDocuments "ct_certs" "{}")
           3 10 connector_start 42).
  - lia.
  - lia.
  - intros i Hi. unfold flaky_driver. simpl.
    destruct (Nat.ltb_spec i 3); [done|lia].
  - reflexivity.
Defined.

Lemma X22_retry_gives_up_witness :
  perform_insert (flaky_driver 9) 10 "ct_certs" "{}" connector_start
  = (GaveUp 1,
     {| driver_calls := 0 + 6;
        connector_trace :=
          [] ++ dropped_attempts 5 (InsertOne "ct_certs" "{}")
             ++ [Called (InsertOne "ct_certs" "{}")] |})
  ∧ seconds_slept (dropped_attempts 5 (InsertOne (Projection := string) "ct_certs" "{}")
                   ++ [Called (InsertOne "ct_certs" "{}")])
    = 25.
Proof.
  apply (X22_retry_gives_up (flaky_driver 9) (InsertOne "ct_certs" "{}")
           10 connector_start).
  - lia.
  - intros i Hi. unfold flaky_driver. simpl.
    destruct (Nat.ltb_spec i 9); [done|lia].
Defined.

Lemma X23_retry_is_bounded_witness :
  ∃ k o,
    (k ≤ 5)%nat
    ∧ perform_find (flaky_driver 2) 6 "ct_certs" "{}" (Some "{_id: 0}") (Some 100)
        connector_start
      = (o, {| driver_calls := 0 + k + 1;
               connector_trace :=
                 [] ++ dropped_attempts k
                         (Find "ct_certs" "{}" (Some "{_id: 0}") (Some 100))
                    ++ [Called (Find "ct_certs" "{}" (Some "{_id: 0}") (Some 100))] |})
    ∧ o ≠ OutOfRounds.
Proof.
  destruct (X23_retry_is_bounded (flaky_driver 2)
              (Find "ct_certs" "{}" (Some "{_id: 0}") (Some 100)) 6 connector_start
              ltac:(lia)) as (k & o & Hk & Erun & Ho & _).
  exists k, o. split; [exact Hk|]. split; [exact Erun|exact Ho].
Defined.
